(** * Media provenance resolution engine ([scripts/enrich_media.py])

    A shallow embedding of the enrichment script that fills the
    [media.image] sub-record of the points of interest of a catalogue,
    and the properties of its parser, clients and merge engine.

    Modelling conventions.
    - A Python [str] is a Rocq [string] holding its UTF-8 bytes.  Every
      character the script tests for is ASCII, and an ASCII byte never
      occurs inside a multi-byte UTF-8 sequence, so byte-wise matching,
      splitting and replacing agree with the code-point-wise operations.
    - A YAML or JSON value is a [pyval].  Mappings are association lists in
      insertion order (the order [yaml.safe_dump(sort_keys=False)] writes)
      and are keyed by strings.  A float is the number it denotes
      ([spec_float]); the script only tests floats for truth and equality.
      Values are trees: two places of a document never share one object
      (no YAML anchors), and timestamps, binary scalars and sets do not
      occur.
    - The three web services are an oracle from requests to responses, the
      same for the whole run; a call is recorded in a log.
    - An exception is a value of [exn], all of them subclasses of
      [Exception]; code that can raise lives in the monad [M] (log of calls
      and result).  In [set_media] every operation
      that can raise runs before the first write, so a raising call leaves
      the record as it was and the in-place update is rendered as a
      functional one. *)

From Stdlib Require Import String Ascii List ZArith Bool Lia Arith.
From Stdlib Require Import DecimalString.
From Stdlib Require DecimalZ DecimalPos.
From Corelib Require Import SpecFloat.
Import ListNotations.
Local Open Scope string_scope.
Local Open Scope list_scope.

Set Implicit Arguments.
Set Warnings "-register-all".

(** ** Python values *)

Inductive pyval : Type :=
| PNone
| PBool (b : bool)
| PInt (n : Z)
| PFloat (f : spec_float)
| PStr (s : string)
| PList (l : list pyval)
| PDict (d : list (string * pyval)).

Definition dict := list (string * pyval).

(** [bool(v)]: the truth value of a value. *)
Definition truthy (v : pyval) : bool :=
  match v with
  | PNone => false
  | PBool b => b
  | PInt n => negb (n =? 0)%Z
  | PFloat (S754_zero _) => false
  | PFloat _ => true
  | PStr s => negb (s =? "")
  | PList l => match l with [] => false | _ => true end
  | PDict d => match d with [] => false | _ => true end
  end.

(** [a or b] on values. *)
Definition py_or (a b : pyval) : pyval := if truthy a then a else b.

Definition Z_of_bool (b : bool) : Z := if b then 1%Z else 0%Z.

(** [f == n] for a float [f] and an integer [n]: exact comparison of the
    two numbers. *)
Definition float_eq_int (f : spec_float) (n : Z) : bool :=
  match f with
  | S754_zero _ => (n =? 0)%Z
  | S754_finite s m e =>
      let v := if s then Z.neg m else Z.pos m in
      if (0 <=? e)%Z then (n =? v * 2 ^ e)%Z else (n * 2 ^ (- e) =? v)%Z
  | _ => false
  end.

(** Raw lookup in an association list: the first binding of the key. *)
Fixpoint assoc (d : dict) (k : string) : option pyval :=
  match d with
  | [] => None
  | (k', v) :: d' => if k' =? k then Some v else assoc d' k
  end.

(** [a == b].  Numbers compare by value across [bool], [int] and [float];
    sequences compare element-wise; mappings compare as sets of
    bindings. *)
Fixpoint py_eq (a b : pyval) {struct a} : bool :=
  match a, b with
  | PNone, PNone => true
  | PBool x, PBool y => Bool.eqb x y
  | PBool x, PInt n => (Z_of_bool x =? n)%Z
  | PInt n, PBool x => (n =? Z_of_bool x)%Z
  | PBool x, PFloat f => float_eq_int f (Z_of_bool x)
  | PFloat f, PBool x => float_eq_int f (Z_of_bool x)
  | PInt n, PInt m => (n =? m)%Z
  | PInt n, PFloat f => float_eq_int f n
  | PFloat f, PInt n => float_eq_int f n
  | PFloat f, PFloat g => SFeqb f g
  | PStr s, PStr t => (s =? t)
  | PList l, PList m =>
      (fix go (l m : list pyval) {struct l} : bool :=
         match l, m with
         | [], [] => true
         | x :: l', y :: m' => py_eq x y && go l' m'
         | _, _ => false
         end) l m
  | PDict d, PDict e =>
      (length d =? length e)%nat &&
      (fix go (d : dict) {struct d} : bool :=
         match d with
         | [] => true
         | (k, v) :: d' =>
             match assoc e k with
             | Some v' => py_eq v v'
             | None => false
             end && go d'
         end) d
  | _, _ => false
  end.

(** [d.get(k)] on a mapping: the value, or [None]. *)
Definition dget (d : dict) (k : string) : pyval :=
  match assoc d k with Some v => v | None => PNone end.

(** [d.get(k, default)]. *)
Definition dget_default (d : dict) (k : string) (dflt : pyval) : pyval :=
  match assoc d k with Some v => v | None => dflt end.

(** [d[k] = v]: replaces the value of an existing key in place, appends a
    new key at the end. *)
Fixpoint dict_set (d : dict) (k : string) (v : pyval) : dict :=
  match d with
  | [] => [(k, v)]
  | (k', v') :: d' =>
      if k' =? k then (k', v) :: d' else (k', v') :: dict_set d' k v
  end.

Definition keys (d : dict) : list string := map fst d.

(** ** Exceptions, calls, and the monad of the script *)

Inductive exn : Type :=
| RequestException   (* requests.RequestException: transport, status, body *)
| AttributeError
| TypeError
| KeyError
| IndexError
| OSError            (* open: no such file *)
| YAMLError.

Inductive result (A : Type) : Type :=
| Ok (a : A)
| Err (e : exn).
Arguments Ok {A} a.
Arguments Err {A} e.

Inductive call : Type :=
| WikipediaQuery (lang title : string)
| WikidataGet (qid : pyval)
| CommonsImageInfo (filename : string).

(** The web: what [r.json()] is for each request, or the exception that
    [requests.get], [raise_for_status] or [json] raises. *)
Definition World := call -> result pyval.

(** A computation: the calls it made, in order, and how it ended. *)
Definition M (A : Type) : Type := list call * result A.

Definition ret {A} (a : A) : M A := ([], Ok a).
Definition raise {A} (e : exn) : M A := ([], Err e).
Definition lift {A} (r : result A) : M A := ([], r).

Definition bind {A B} (m : M A) (f : A -> M B) : M B :=
  match m with
  | (l, Ok a) => let (l', r) := f a in (l ++ l', r)
  | (l, Err e) => (l, Err e)
  end.

Definition rbind {A B} (m : result A) (f : A -> result B) : result B :=
  match m with
  | Ok a => f a
  | Err e => Err e
  end.

Declare Scope py_scope.
Delimit Scope py_scope with py.
Notation "x <- m ;; k" := (bind m (fun x => k))
  (at level 61, m at next level, right associativity) : py_scope.
Notation "x <-! m ;; k" := (rbind m (fun x => k))
  (at level 61, m at next level, right associativity) : py_scope.
Local Open Scope py_scope.

(** One request to a service. *)
Definition request (w : World) (c : call) : M pyval := ([c], w c).

(** [v.get(...)] needs [v] to be a mapping. *)
Definition as_dict (v : pyval) : result dict :=
  match v with
  | PDict d => Ok d
  | _ => Err AttributeError
  end.

(** [v.get(k)] on any value. *)
Definition py_get (v : pyval) (k : string) : result pyval :=
  d <-! as_dict v ;; Ok (dget d k).

(** [v[0]].  On a non-empty [str] it is the first character, that is the
    first UTF-8 sequence of the string. *)
Definition first_char (s : string) : string :=
  match s with
  | "" => ""
  | String c _ =>
      let n := nat_of_ascii c in
      if (n <? 192)%nat then substring 0 1 s
      else if (n <? 224)%nat then substring 0 2 s
      else if (n <? 240)%nat then substring 0 3 s
      else substring 0 4 s
  end.

Definition py_index0 (v : pyval) : result pyval :=
  match v with
  | PList (x :: _) => Ok x
  | PList [] => Err IndexError
  | PStr "" => Err IndexError
  | PStr s => Ok (PStr (first_char s))
  | PDict _ => Err KeyError
  | _ => Err TypeError
  end.

(** ** String operations *)

(** [s.replace(a, b)] for one-character [a] and [b]. *)
Fixpoint replace_char (a b : ascii) (s : string) : string :=
  match s with
  | "" => ""
  | String c s' => String (if (c =? a)%char then b else c) (replace_char a b s')
  end.

(** [s.split(c)[0]]: what precedes the first [c]. *)
Fixpoint before_first (c : ascii) (s : string) : string :=
  match s with
  | "" => ""
  | String x s' => if (x =? c)%char then "" else String x (before_first c s')
  end.

(** The longest prefix of characters satisfying [p], and the rest. *)
Fixpoint span (p : ascii -> bool) (s : string) : string * string :=
  match s with
  | "" => ("", "")
  | String c s' =>
      if p c then let (a, b) := span p s' in (String c a, b) else ("", s)
  end.

(** [Some rest] when [s = p ++ rest]. *)
Fixpoint strip_prefix (p s : string) : option string :=
  match p, s with
  | "", _ => Some s
  | String a p', String b s' =>
      if (a =? b)%char then strip_prefix p' s' else None
  | String _ _, "" => None
  end.

Definition newline : ascii := "010"%char.

(** [str(n)] for an [int]. *)
Definition string_of_Z (n : Z) : string := NilZero.string_of_int (Z.to_int n).

(** *** [str.strip()]

    The characters Python strips are those with [str.isspace()]: U+0009 to
    U+000D, U+001C to U+0020, U+0085, U+00A0, U+1680, U+2000 to U+200A,
    U+2028, U+2029, U+202F, U+205F and U+3000, here by their UTF-8
    bytes. *)

Definition space1 (c : ascii) : bool :=
  let n := nat_of_ascii c in
  ((9 <=? n) && (n <=? 13) || (28 <=? n) && (n <=? 32))%nat.

Definition space2 (c1 c2 : ascii) : bool :=
  let a := nat_of_ascii c1 in
  let b := nat_of_ascii c2 in
  ((a =? 194) && ((b =? 133) || (b =? 160)))%nat.

Definition space3 (c1 c2 c3 : ascii) : bool :=
  let a := nat_of_ascii c1 in
  let b := nat_of_ascii c2 in
  let c := nat_of_ascii c3 in
  ((a =? 225) && (b =? 154) && (c =? 128)
   || (a =? 226) && (b =? 128)
        && ((128 <=? c) && (c <=? 138) || (c =? 168) || (c =? 169) || (c =? 175))
   || (a =? 226) && (b =? 129) && (c =? 159)
   || (a =? 227) && (b =? 128) && (c =? 128))%nat.

(** Drops leading white space; [w2] and [w3] recognise the two- and
    three-byte characters in the order the bytes are met. *)
Fixpoint lstrip_with (w2 : ascii -> ascii -> bool)
    (w3 : ascii -> ascii -> ascii -> bool) (s : string) : string :=
  match s with
  | "" => ""
  | String c1 s1 =>
      if space1 c1 then lstrip_with w2 w3 s1
      else
        match s1 with
        | String c2 s2 =>
            if w2 c1 c2 then lstrip_with w2 w3 s2
            else
              match s2 with
              | String c3 s3 =>
                  if w3 c1 c2 c3 then lstrip_with w2 w3 s3 else s
              | "" => s
              end
        | "" => s
        end
  end.

Definition string_rev (s : string) : string :=
  string_of_list_ascii (rev (list_ascii_of_string s)).

Definition lstrip (s : string) : string := lstrip_with space2 space3 s.

(** Trailing white space is leading white space of the reversed string,
    its bytes met last to first. *)
Definition rstrip (s : string) : string :=
  string_rev
    (lstrip_with (fun a b => space2 b a) (fun a b c => space3 c b a)
       (string_rev s)).

Definition py_strip (s : string) : string := rstrip (lstrip s).

(** *** [re.sub(r"<[^>]+>", "", s)] *)

(** A match of [[^>]*>] at the head of [s]: the characters before the
    first [>] and what follows it. *)
Fixpoint until_gt (s : string) : option (string * string) :=
  match s with
  | "" => None
  | String c s' =>
      if (c =? ">")%char then Some ("", s')
      else
        match until_gt s' with
        | Some (body, rest) => Some (String c body, rest)
        | None => None
        end
  end.

(** A match of [<[^>]+>] at the head of [s]: what follows the match.  The
    class [[^>]] cannot step over a [>], so the greedy match is the only
    one. *)
Definition match_tag (s : string) : option string :=
  match s with
  | String "<" s' =>
      match until_gt s' with
      | Some (String _ _, rest) => Some rest
      | _ => None
      end
  | _ => None
  end.

(** Left to right: a match is deleted and the scan resumes after it, any
    other character is kept.  [fuel] bounds the number of steps; the length
    of the string is enough ([re_sub_tags_fuel]). *)
Fixpoint re_sub_tags_n (fuel : nat) (s : string) : string :=
  match fuel with
  | O => s
  | S n =>
      match match_tag s with
      | Some rest => re_sub_tags_n n rest
      | None =>
          match s with
          | "" => ""
          | String c s' => String c (re_sub_tags_n n s')
          end
      end
  end.

Definition re_sub_tags (s : string) : string := re_sub_tags_n (String.length s) s.

(** ** Reference parser *)

Definition is_lang_char (c : ascii) : bool :=
  let n := nat_of_ascii c in
  ((97 <=? n) && (n <=? 122) || (n =? 45))%nat.

Definition not_newline (c : ascii) : bool := negb (c =? newline)%char.

(** [re.match(r"^https?://([a-z\-]+)\.wikipedia\.org/wiki/(.+)$", url)]:
    groups 1 and 2 of the match.  The two classes are followed by a
    character outside them (the dot, the end), so only the longest run can
    match; [$] is the end of the string or the place before a final
    newline. *)
Definition match_wikipedia_url (url : string) : option (string * string) :=
  match
    match strip_prefix "https://" url with
    | Some r => Some r
    | None => strip_prefix "http://" url
    end
  with
  | None => None
  | Some r =>
      let (lang, r1) := span is_lang_char r in
      if lang =? "" then None
      else
        match strip_prefix ".wikipedia.org/wiki/" r1 with
        | None => None
        | Some r2 =>
            let (t, r3) := span not_newline r2 in
            if t =? "" then None
            else if (r3 =? "") || (r3 =? String newline "") then Some (lang, t)
            else None
        end
  end.

Definition wikipedia_lang_and_title (url : string) : option (string * string) :=
  if url =? "" then None
  else
    match match_wikipedia_url url with
    | None => None
    | Some (lang, g2) => Some (lang, replace_char "_" " " (before_first "#" g2))
    end.

(** ** Page metadata client *)

(** [v.replace(a, b)] needs [v] to be a [str]. *)
Definition py_replace (v : pyval) (a b : ascii) : result string :=
  match v with
  | PStr s => Ok (replace_char a b s)
  | _ => Err AttributeError
  end.

Definition wikipedia_pageinfo (w : World) (lang title : string) : M dict :=
  j <- request w (WikipediaQuery lang title) ;;
  lift
    (query <-! py_get (py_or j (PDict [])) "query" ;;
     pages0 <-! py_get (py_or query (PDict [])) "pages" ;;
     let pages := py_or pages0 (PList []) in
     if negb (truthy pages) then Ok []
     else
       page <-! py_index0 pages ;;
       missing <-! py_get page "missing" ;;
       if truthy missing then Ok []
       else
         thumbnail0 <-! py_get page "thumbnail" ;;
         thumbnail <-! py_get (py_or thumbnail0 (PDict [])) "source" ;;
         pageprops <-! py_get page "pageprops" ;;
         qid <-! py_get (py_or pageprops (PDict [])) "wikibase_item" ;;
         title0 <-! py_get page "title" ;;
         t <-! py_replace (py_or title0 (PStr title)) " " "_" ;;
         Ok [("thumbnail", thumbnail);
             ("qid", qid);
             ("page_url", PStr ("https://" ++ lang ++ ".wikipedia.org/wiki/" ++ t))]).

(** ** Entity image resolver *)

(** [d.get(k)] for a key that is any value: a key that is not a [str] is
    in no mapping of the model, a list or a mapping cannot be hashed. *)
Definition dget_key (d : dict) (k : pyval) : result pyval :=
  match k with
  | PStr s => Ok (dget d s)
  | PList _ | PDict _ => Err TypeError
  | _ => Ok PNone
  end.

Definition wikidata_entity (w : World) (qid : pyval) : M pyval :=
  j <- request w (WikidataGet qid) ;;
  lift
    (top <-! as_dict (py_or j (PDict [])) ;;
     entities <-! as_dict (dget_default top "entities" (PDict [])) ;;
     dget_key entities qid).

(** The body of the [try] block; [None] is the Python [None]. *)
Definition wikidata_p18_filename_body (ent : pyval) : result (option string) :=
  claims0 <-! py_get ent "claims" ;;
  p18_0 <-! py_get (py_or claims0 (PDict [])) "P18" ;;
  let p18 := py_or p18_0 (PList []) in
  if negb (truthy p18) then Ok None
  else
    first <-! py_index0 p18 ;;
    mainsnak <-! py_get first "mainsnak" ;;
    datavalue <-! py_get (py_or mainsnak (PDict [])) "datavalue" ;;
    value <-! py_get (py_or datavalue (PDict [])) "value" ;;
    match value with
    | PStr v => if py_strip v =? "" then Ok None else Ok (Some (py_strip v))
    | _ => Ok None
    end.

(** [except Exception: return None]. *)
Definition wikidata_p18_filename (ent : pyval) : option string :=
  match wikidata_p18_filename_body ent with
  | Ok r => r
  | Err _ => None
  end.

(** ** Asset metadata client *)

Definition commons_thumb_url (filename : string) (width : Z) : string :=
  "https://commons.wikimedia.org/wiki/Special:FilePath/"
  ++ replace_char " " "_" filename ++ "?width=" ++ string_of_Z width.

Definition commons_page_url (filename : string) : string :=
  "https://commons.wikimedia.org/wiki/File:" ++ replace_char " " "_" filename.

(** The local function [_v] of [commons_imageinfo], with the mapping [ext]
    it closes over as its first argument. *)
Definition _v (ext : pyval) (k : string) : result pyval :=
  entry <-! py_get ext k ;;
  val <-! py_get (py_or entry (PDict [])) "value" ;;
  match val with
  | PStr s =>
      let s' := py_strip (re_sub_tags s) in
      Ok (if s' =? "" then PNone else PStr s')
  | _ => Ok PNone
  end.

(** [a or b], where [b] is evaluated only when [a] is falsy. *)
Definition or_else (a b : result pyval) : result pyval :=
  x <-! a ;; if truthy x then Ok x else b.

(** The mapping returned for the image information [first = ii[0]]. *)
Definition imageinfo_meta (first : pyval) : result dict :=
  ext0 <-! py_get first "extmetadata" ;;
  let ext := py_or ext0 (PDict []) in
  license <-! or_else (_v ext "LicenseShortName") (_v ext "License") ;;
  license_url <-! _v ext "LicenseUrl" ;;
  credit <-! or_else (_v ext "Credit")
               (or_else (_v ext "Artist") (py_get first "user")) ;;
  Ok [("license", license); ("license_url", license_url); ("credit", credit)].

(** The loop over [pages.items()]: the first page with image information
    decides. *)
Fixpoint imageinfo_pages (pages : dict) : result dict :=
  match pages with
  | [] => Ok []
  | (_, page) :: rest =>
      ii0 <-! py_get page "imageinfo" ;;
      let ii := py_or ii0 (PList []) in
      if negb (truthy ii) then imageinfo_pages rest
      else first <-! py_index0 ii ;; imageinfo_meta first
  end.

Definition commons_imageinfo (w : World) (filename : string) : M dict :=
  data <- request w (CommonsImageInfo filename) ;;
  lift
    (query <-! py_get (py_or data (PDict [])) "query" ;;
     pages0 <-! py_get (py_or query (PDict [])) "pages" ;;
     pages <-! as_dict (py_or pages0 (PDict [])) ;;
     imageinfo_pages pages).

(** ** Merge engine *)

(** [if cond: img[k] = v; changed = True]. *)
Definition write_if (cond : bool) (k : string) (v : pyval)
    (st : dict * bool) : dict * bool :=
  if cond then (dict_set (fst st) k v, true) else st.

(** The writes of [set_media] on the image mapping, in order. *)
Definition merge_image (img : dict) (thumb page : pyval) (meta : dict)
  : dict * bool :=
  let st := (img, false) in
  let st := write_if (negb (py_eq (dget (fst st) "thumb") thumb)) "thumb" thumb st in
  let st := write_if (truthy page && negb (py_eq (dget (fst st) "page") page))
              "page" page st in
  let st := write_if (truthy (dget meta "license")
                      && negb (py_eq (dget (fst st) "license") (dget meta "license")))
              "license" (dget meta "license") st in
  let st := write_if (truthy (dget meta "license_url")
                      && negb (py_eq (dget (fst st) "license_url")
                                 (dget meta "license_url")))
              "license_url" (dget meta "license_url") st in
  let st := write_if (truthy (dget meta "credit")
                      && negb (py_eq (dget (fst st) "credit") (dget meta "credit")))
              "credit" (dget meta "credit") st in
  write_if (negb (py_eq (dget (fst st) "source") (PStr "wikimedia")))
    "source" (PStr "wikimedia") st.

Definition set_media (poi thumb page : pyval) (meta : dict)
  : result (bool * pyval) :=
  poi_d <-! as_dict poi ;;
  media <-! as_dict (py_or (dget poi_d "media") (PDict [])) ;;
  img <-! as_dict (py_or (dget media "image") (PDict [])) ;;
  let (img', changed) := merge_image img thumb page meta in
  let media' := dict_set media "image" (PDict img') in
  Ok (changed, PDict (dict_set poi_d "media" (PDict media'))).

(** [((poi.get("media") or {}).get("image") or {}).get("thumb")]. *)
Definition existing_thumb (poi : pyval) : result pyval :=
  media <-! py_get poi "media" ;;
  image <-! py_get (py_or media (PDict [])) "image" ;;
  py_get (py_or image (PDict [])) "thumb".

(** The Wikipedia step: [(wiki_thumb, wiki_qid, wiki_page)].  [re.match]
    raises [TypeError] on a link that is not a [str]. *)
Definition wikipedia_step (w : World) (wiki : pyval)
  : M (pyval * pyval * pyval) :=
  if truthy wiki then
    match wiki with
    | PStr url =>
        match wikipedia_lang_and_title url with
        | Some (lang, title) =>
            info <- wikipedia_pageinfo w lang title ;;
            ret (dget info "thumbnail", dget info "qid",
                 py_or (dget info "page_url") wiki)
        | None => ret (PNone, PNone, PNone)
        end
    | _ => raise TypeError
    end
  else ret (PNone, PNone, PNone).

(** The Wikidata step: [Some r] when it returned [r] from [enrich_poi],
    [None] when control falls through to the fallback. *)
Definition wikidata_step (w : World) (poi : pyval) (width : Z) (best_qid : pyval)
  : M (option (bool * pyval)) :=
  if truthy best_qid then
    ent <- wikidata_entity w best_qid ;;
    if truthy ent then
      match wikidata_p18_filename ent with
      | Some p18 =>
          let thumb := commons_thumb_url p18 width in
          let page := commons_page_url p18 in
          meta <- commons_imageinfo w p18 ;;
          r <- lift (set_media poi (PStr thumb) (PStr page) meta) ;;
          ret (Some r)
      | None => ret None
      end
    else ret None
  else ret None.

Definition enrich_poi (w : World) (poi : pyval) (width : Z) (overwrite : bool)
  : M (bool * pyval) :=
  existing <- lift (existing_thumb poi) ;;
  if truthy existing && negb overwrite then ret (false, poi)
  else
    links0 <- lift (py_get poi "links") ;;
    let links := py_or links0 (PDict []) in
    qid <- lift (py_get links "wikidata") ;;
    wiki <- lift (py_get links "wikipedia") ;;
    wk <- wikipedia_step w wiki ;;
    let '(wiki_thumb, wiki_qid, wiki_page) := wk in
    let best_qid := py_or qid wiki_qid in
    r <- wikidata_step w poi width best_qid ;;
    match r with
    | Some r => ret r
    | None =>
        if truthy wiki_thumb then
          lift (set_media poi wiki_thumb (py_or wiki_page wiki) [])
        else ret (false, poi)
    end.

(** ** The run: [main] *)

(** A line [[warn] path: id request failed: e] or [[warn] path: id failed: e]
    on the error stream. *)
Record warning : Type := Warning {
  warn_path : string;
  warn_id : pyval;
  warn_request : bool;   (* caught as [requests.RequestException] *)
  warn_exn : exn
}.

Definition is_request_exception (e : exn) : bool :=
  match e with
  | RequestException => true
  | _ => false
  end.

(** The [try] statement of the inner loop: the record after it, whether it
    counts as changed, and the warning printed.  The handler evaluates
    [poi.get('id')] outside any [try]. *)
Definition try_enrich (w : World) (path : string) (width : Z) (overwrite : bool)
    (poi : pyval) : M (pyval * bool * list warning) :=
  match enrich_poi w poi width overwrite with
  | (log, Ok (c, poi')) => (log, Ok (poi', c, []))
  | (log, Err e) =>
      (log,
       id <-! py_get poi "id" ;;
       Ok (poi, false, [Warning path id (is_request_exception e) e]))
  end.

(** [for poi in pois]: the records after the loop, the counter [changed]
    and the warnings. *)
Fixpoint enrich_pois (w : World) (path : string) (width : Z) (overwrite : bool)
    (pois : list pyval) : M (list pyval * nat * list warning) :=
  match pois with
  | [] => ret ([], 0, [])
  | poi :: rest =>
      r <- try_enrich w path width overwrite poi ;;
      let '(poi', c, ws) := r in
      rs <- enrich_pois w path width overwrite rest ;;
      let '(rest', n, ws') := rs in
      ret (poi' :: rest', (if c then 1 else 0) + n, ws ++ ws')
  end.

(** The body of the outer loop between [load_yaml] and [save_yaml]: the
    document in memory after the inner loop, the counter and the warnings.
    Iterating a non-empty mapping or [str] yields a [str], on which both
    [enrich_poi] and the handler raise; a number is not iterable. *)
Definition enrich_data (w : World) (path : string) (width : Z) (overwrite : bool)
    (data : pyval) : M (pyval * nat * list warning) :=
  data_d <- lift (as_dict data) ;;
  let pois := py_or (dget data_d "pois") (PList []) in
  match pois with
  | PList l =>
      r <- enrich_pois w path width overwrite l ;;
      let '(l', n, ws) := r in
      ret (match l with
           | [] => data
           | _ => PDict (dict_set data_d "pois" (PList l'))
           end, n, ws)
  | PDict _ | PStr _ => raise AttributeError
  | _ => raise TypeError
  end.

(** What the run prints on the output stream for a file:
    [path: +changed images], and the warnings before it. *)
Record summary : Type := Summary {
  sum_path : string;
  sum_changed : nat;
  sum_warnings : list warning
}.

(** The files.  The YAML library is a collaborator known by its interface:
    a file is a value of [file] (its bytes), [safe_load] parses one or
    raises, [safe_dump] writes one. *)
Section Files.

Variable file : Type.
Variable safe_load : file -> result pyval.
Variable safe_dump : pyval -> file.

Definition disk : Type := string -> option file.

(** [yaml.safe_load(f) or {}]; [open] raises on a missing file. *)
Definition load_yaml (fs : disk) (path : string) : result pyval :=
  match fs path with
  | Some f => v <-! safe_load f ;; Ok (py_or v (PDict []))
  | None => Err OSError
  end.

Definition save_yaml (fs : disk) (path : string) (data : pyval) : disk :=
  fun p => if p =? path then Some (safe_dump data) else fs p.

(** One pass of the outer loop: the files after it and the summary.
    [save_yaml] runs only [if changed]. *)
Definition enrich_file (w : World) (path : string) (width : Z)
    (overwrite : bool) (fs : disk) : disk * M summary :=
  match load_yaml fs path with
  | Err e => (fs, raise e)
  | Ok data =>
      match enrich_data w path width overwrite data with
      | (log, Err e) => (fs, (log, Err e))
      | (log, Ok (data', n, ws)) =>
          (match n with
           | O => fs
           | S _ => save_yaml fs path data'
           end,
           (log, Ok (Summary path n ws)))
      end
  end.

(** [main], after the arguments are parsed: the files when it ends, the
    calls made and the summaries printed (the exit status is then 0), or
    the exception that ended it. *)
Fixpoint main (w : World) (yamls : list string) (width : Z)
    (overwrite : bool) (fs : disk) : disk * M (list summary) :=
  match yamls with
  | [] => (fs, ret [])
  | path :: rest =>
      match enrich_file w path width overwrite fs with
      | (fs', (log, Err e)) => (fs', (log, Err e))
      | (fs', (log, Ok s)) =>
          let (fs'', m) := main w rest width overwrite fs' in
          (fs'', _ <- (log, Ok tt) ;; ss <- m ;; ret (s :: ss))
      end
  end.

End Files.

(** ** Vocabulary of the statements *)

(** A value equal to itself; every string is, a float that is not a
    number is not. *)
Definition self_equal (v : pyval) : Prop := py_eq v v = true.

(** A record of the catalogue is a mapping. *)
Definition is_mapping (v : pyval) : Prop := exists d, v = PDict d.

(** A field of a resolution result as the annotations of [set_media] type
    it: a [str] or [None]. *)
Definition plain (v : pyval) : Prop := v = PNone \/ exists s, v = PStr s.

(** The three metadata fields of a resolution result. *)
Definition meta_fields : list string := ["license"; "license_url"; "credit"].

(** The mapping [media.image] of a record as [set_media] and [enrich_poi]
    read it: empty when [media] or [image] is missing or falsy. *)
Definition image_of (poi : pyval) : result dict :=
  poi_d <-! as_dict poi ;;
  media <-! as_dict (py_or (dget poi_d "media") (PDict [])) ;;
  as_dict (py_or (dget media "image") (PDict [])).

(** The mapping under key [k], empty when missing or falsy. *)
Definition submap (d : dict) (k : string) : dict :=
  match py_or (dget d k) (PDict []) with
  | PDict m => m
  | _ => []
  end.

(** [d'] has the bindings of [d] outside the keys [ks], and the keys of
    [d] in their order, followed by the new ones. *)
Definition unchanged_outside (ks : list string) (d d' : dict) : Prop :=
  (forall k, ~ In k ks -> assoc d' k = assoc d k)
  /\ exists extra, keys d' = keys d ++ extra.

Definition image_fields : list string :=
  ["thumb"; "page"; "license"; "license_url"; "credit"; "source"].

(** A record without usable links: [links] missing, falsy or a mapping
    whose [wikidata] and [wikipedia] are missing or falsy. *)
Definition no_links (poi_d : dict) : Prop :=
  exists links,
    py_or (dget poi_d "links") (PDict []) = PDict links
    /\ truthy (dget links "wikidata") = false
    /\ truthy (dget links "wikipedia") = false.

(** [media.image.thumb] of the record when [enrich_poi] has returned. *)
Definition final_thumb (w : World) (poi : pyval) (width : Z) (overwrite : bool)
  : result pyval :=
  match enrich_poi w poi width overwrite with
  | (_, Ok (_, poi')) => existing_thumb poi'
  | (_, Err e) => Err e
  end.


(** *** Tags *)

Fixpoint no_gt (s : string) : bool :=
  match s with
  | "" => true
  | String c s' => negb (c =? ">")%char && no_gt s'
  end.

(** A string of the language of [<[^>]+>]. *)
Definition is_tag (t : string) : Prop :=
  exists body, t = ("<" ++ body ++ ">")%string /\ body <> "" /\ no_gt body = true.

(** A string with a tag somewhere in it. *)
Definition has_tag (s : string) : Prop :=
  exists a t b, s = (a ++ t ++ b)%string /\ is_tag t.

(** The same, by search: a tag starts at some position. *)
Fixpoint contains_tag (s : string) : bool :=
  match match_tag s with
  | Some _ => true
  | None =>
      match s with
      | "" => false
      | String _ s' => contains_tag s'
      end
  end.

(** A value that went through [_v]: [None], or what is left of a string
    of the response once tags and surrounding white space are removed,
    when something is left. *)
Definition cleaned (v : pyval) : Prop :=
  v = PNone
  \/ exists raw,
       v = PStr (py_strip (re_sub_tags raw)) /\ py_strip (re_sub_tags raw) <> "".



(** *** The shape of an encyclopedia reference *)

Fixpoint all_chars (p : ascii -> bool) (s : string) : bool :=
  match s with
  | "" => true
  | String c s' => p c && all_chars p s'
  end.

(** [url] is [http] or [https], [://], a language code of lower-case
    letters and hyphens, [.wikipedia.org/wiki/] and a path [g2] that is
    not empty and has no newline, possibly followed by one final
    newline. *)
Definition reference_shape (url lang g2 : string) : Prop :=
  exists scheme tail,
    url = (scheme ++ "://" ++ lang ++ ".wikipedia.org/wiki/" ++ g2 ++ tail)%string
    /\ (scheme = "http" \/ scheme = "https")
    /\ lang <> "" /\ all_chars is_lang_char lang = true
    /\ g2 <> "" /\ all_chars not_newline g2 = true
    /\ (tail = "" \/ tail = String newline "").

(** *** Percent-decoding, as the specification asks of the parser *)

Definition hex_digit (c : ascii) : option nat :=
  let n := nat_of_ascii c in
  if ((48 <=? n) && (n <=? 57))%nat then Some (n - 48)
  else if ((65 <=? n) && (n <=? 70))%nat then Some (n - 55)
  else if ((97 <=? n) && (n <=? 102))%nat then Some (n - 87)
  else None.

(** Every [%XY] with hexadecimal digits [X] and [Y] stands for the byte
    [XY]. *)
Fixpoint spec_percent_decode (s : string) : string :=
  match s with
  | "" => ""
  | String c s1 =>
      match s1 with
      | String h (String l rest) =>
          match (c =? "%")%char, hex_digit h, hex_digit l with
          | true, Some a, Some b =>
              String (ascii_of_nat (16 * a + b)) (spec_percent_decode rest)
          | _, _, _ => String c (spec_percent_decode s1)
          end
      | _ => String c (spec_percent_decode s1)
      end
  end.

(** The reference parser of the specification: the title is
    percent-decoded as well. *)
Definition spec_lang_and_title (url : string) : option (string * string) :=
  match match_wikipedia_url url with
  | None => None
  | Some (lang, g2) =>
      Some (lang,
            replace_char "_" " " (spec_percent_decode (before_first "#" g2)))
  end.

(** ** Sample data *)

Definition page_thumb : string :=
  "https://upload.wikimedia.org/wikipedia/commons/thumb/3/3c/Menin_Gate.jpg/900px-Menin_Gate.jpg".

Definition menin_links : pyval :=
  PDict [("wikipedia", PStr "https://en.wikipedia.org/wiki/Menin_Gate");
         ("wikidata", PStr "Q1124785")].

(** A record as the catalogue holds it, not enriched yet. *)
Definition menin_gate : pyval :=
  PDict [("id", PStr "menin-gate");
         ("name", PStr "Menin Gate");
         ("region_id", PStr "ypres");
         ("links", menin_links)].

(** The same record with a thumbnail set by hand, without a license. *)
Definition menin_gate_manual (thumb : string) : pyval :=
  PDict [("id", PStr "menin-gate");
         ("name", PStr "Menin Gate");
         ("region_id", PStr "ypres");
         ("links", menin_links);
         ("media", PDict [("image", PDict [("thumb", PStr thumb)])])].

(** A record without links. *)
Definition frituur : pyval :=
  PDict [("id", PStr "frituur-de-leet"); ("name", PStr "Frituur De Leet")].

Definition wikipedia_reply (thumbnail : pyval) (qid : pyval) : pyval :=
  PDict [("query",
          PDict [("pages",
                  PList [PDict [("title", PStr "Menin Gate");
                                ("thumbnail", PDict [("source", thumbnail)]);
                                ("pageprops", PDict [("wikibase_item", qid)])]])])].

Definition wikidata_reply (qid : string) (claims : dict) : pyval :=
  PDict [("entities", PDict [(qid, PDict [("claims", PDict claims)])])].

Definition p18_claim (filename : string) : dict :=
  [("P18",
    PList [PDict [("mainsnak",
                   PDict [("datavalue", PDict [("value", PStr filename)])])]])].

Definition commons_reply (imageinfo : dict) : pyval :=
  PDict [("query",
          PDict [("pages",
                  PDict [("71595",
                          PDict [("imageinfo", PList [PDict imageinfo])])])])].

Definition extvalue (s : string) : pyval := PDict [("value", PStr s)].

Definition menin_imageinfo : dict :=
  [("user", PStr "Uploader");
   ("extmetadata",
    PDict [("LicenseShortName", extvalue "CC BY-SA 4.0");
           ("LicenseUrl", extvalue "https://creativecommons.org/licenses/by-sa/4.0");
           ("Artist", extvalue "<a href='//commons.wikimedia.org/wiki/User:J'>Johan</a>")])].

(** A web where the three services answer for the Menin Gate, the entity
    has the image claim [filename_claims], and everything else fails. *)
Definition web (claims : dict) (imageinfo : dict) : World :=
  fun c =>
    match c with
    | WikipediaQuery lang title =>
        if (lang =? "en") && (title =? "Menin Gate")
        then Ok (wikipedia_reply (PStr page_thumb) (PStr "Q1124785"))
        else Err RequestException
    | WikidataGet (PStr qid) =>
        if qid =? "Q1124785" then Ok (wikidata_reply qid claims)
        else Err RequestException
    | WikidataGet _ => Err RequestException
    | CommonsImageInfo filename =>
        if filename =? "Menin Gate.jpg" then Ok (commons_reply imageinfo)
        else Err RequestException
    end.

Definition menin_web : World := web (p18_claim "Menin Gate.jpg") menin_imageinfo.

(** What the asset metadata client returns for the sample file. *)
Definition menin_meta : dict :=
  [("license", PStr "CC BY-SA 4.0");
   ("license_url", PStr "https://creativecommons.org/licenses/by-sa/4.0");
   ("credit", PStr "Johan")].

(** The sample record after a run on the sample web. *)
Definition menin_gate_enriched : pyval :=
  PDict [("id", PStr "menin-gate");
         ("name", PStr "Menin Gate");
         ("region_id", PStr "ypres");
         ("links", menin_links);
         ("media",
          PDict [("image",
                  PDict [("thumb", PStr (commons_thumb_url "Menin Gate.jpg" 900));
                         ("page", PStr (commons_page_url "Menin Gate.jpg"));
                         ("license", PStr "CC BY-SA 4.0");
                         ("license_url",
                          PStr "https://creativecommons.org/licenses/by-sa/4.0");
                         ("credit", PStr "Johan");
                         ("source", PStr "wikimedia")])])].

(** The web after the image claim was withdrawn from the entity. *)
Definition web_without_claim : World := web [] menin_imageinfo.

(** A catalogue of three records: one without links, the Menin Gate, and
    a record whose encyclopedia page is not served by [menin_web]. *)
Definition tyne_cot : dict :=
  [("id", PStr "tyne-cot");
   ("links", PDict [("wikipedia", PStr "https://en.wikipedia.org/wiki/Tyne_Cot")])].

Definition catalogue : dict :=
  [("version", PInt 1);
   ("pois", PList ([frituur] ++ PDict tyne_cot :: [menin_gate]))].

(** A file system that stores parsed documents themselves. *)
Definition one_file (path : string) (v : pyval) : string -> option pyval :=
  fun p => if p =? path then Some v else None.

(** A web where the image information has no extended metadata and the
    uploading user is written with markup. *)
Definition bot_web : World :=
  web (p18_claim "Menin Gate.jpg") [("user", PStr "<b>Bot</b>")].

(** The web with every service down. *)
Definition no_web : World := fun _ => Err RequestException.

(** The record, the flag and the warnings after the loop body ran on the
    sample record with the sample web. *)
Definition commons_example_run : pyval * bool * list warning :=
  match snd (try_enrich menin_web "data/ww1-belgium.yaml" 900 false menin_gate) with
  | Ok r => r
  | Err _ => (PNone, false, [])
  end.


(** ** Vocabulary and sample data of the further properties *)

(** A white-space character starts the string; [w2] and [w3] as for
    [lstrip_with]. *)
Definition starts_space (w2 : ascii -> ascii -> bool)
    (w3 : ascii -> ascii -> ascii -> bool) (s : string) : bool :=
  match s with
  | "" => false
  | String c1 s1 =>
      space1 c1
      || match s1 with
         | "" => false
         | String c2 s2 =>
             w2 c1 c2
             || match s2 with
                | "" => false
                | String c3 _ => w3 c1 c2 c3
                end
         end
  end.

(** No white space at either end. *)
Definition trimmed (s : string) : Prop :=
  starts_space space2 space3 s = false
  /\ starts_space (fun a b => space2 b a) (fun a b c => space3 c b a)
       (string_rev s) = false.

(** The sample record with another entity id stored than the one of its
    encyclopedia page. *)
Definition menin_gate_other_id : dict :=
  [("id", PStr "menin-gate");
   ("links",
    PDict [("wikipedia", PStr "https://en.wikipedia.org/wiki/Menin_Gate");
           ("wikidata", PStr "Q42")])].

(** A record whose encyclopedia link is no reference. *)
Definition bad_link : dict :=
  [("id", PStr "hill-60");
   ("links", PDict [("wikipedia", PStr "https://example.org/Hill_60")])].

(** The document, the counter and the warnings after the inner loop ran
    over the sample catalogue on the sample web. *)
Definition catalogue_run : pyval * nat * list warning :=
  match snd (enrich_data menin_web "data/ww1-belgium.yaml" 900 false
               (PDict catalogue)) with
  | Ok r => r
  | Err _ => (PNone, 0, [])
  end.

(** What [set_media] makes of the sample record with the sample result. *)
Definition menin_set_media : bool * pyval :=
  match set_media menin_gate (PStr (commons_thumb_url "Menin Gate.jpg" 900))
          (PStr (commons_page_url "Menin Gate.jpg")) menin_meta with
  | Ok r => r
  | Err _ => (false, PNone)
  end.

(** A catalogue whose second record is a string, not a mapping. *)
Definition broken_catalogue : dict :=
  [("pois", PList ([menin_gate] ++ PStr "tyne-cot" :: [frituur]))].

(** What the page metadata client returns for the sample page. *)
Definition menin_pageinfo : dict :=
  match snd (wikipedia_pageinfo menin_web "en" "Menin Gate") with
  | Ok info => info
  | Err _ => []
  end.

(** The extended metadata of the sample image information. *)
Definition menin_extmetadata : pyval := dget menin_imageinfo "extmetadata".

(** An entity whose image claim has a file name with white space around
    it. *)
Definition padded_entity : pyval :=
  PDict [("claims", PDict (p18_claim "  Menin Gate.jpg "))].

(** The pages of an asset response: a page without image information
    before the page of the sample file. *)
Definition two_pages : dict :=
  [("-1", PDict [("title", PStr "File:Menin Gate.jpg"); ("missing", PStr "")])]
  ++ ("71595", PDict [("imageinfo", PList [PDict menin_imageinfo])]) :: [].



(** The response of the encyclopedia for a title it has no page for. *)
Definition missing_page_reply : pyval :=
  PDict [("batchcomplete", PBool true);
         ("query",
          PDict [("pages",
                  PList [PDict [("title", PStr "Tyne Cot");
                                ("missing", PBool true)]])])].

(** A web where the encyclopedia answers that the page is missing. *)
Definition web_without_page : World :=
  fun c =>
    match c with
    | WikipediaQuery _ _ => Ok missing_page_reply
    | _ => Err RequestException
    end.

(** * Properties *)

(** ** Values and mappings *)

Lemma py_eq_str (x : pyval) (s : string) :
  py_eq x (PStr s) = true -> x = PStr s.
Proof.
  destruct x; simpl; try discriminate.
  intro H. apply String.eqb_eq in H. now subst.
Qed.

Lemma py_eq_str_refl (s : string) : py_eq (PStr s) (PStr s) = true.
Proof. simpl. apply String.eqb_refl. Qed.

Lemma py_eq_none_l (v : pyval) : py_eq PNone v = true -> v = PNone.
Proof. destruct v; simpl; congruence. Qed.

Lemma float_eq_int_zero (f : spec_float) (n : Z) :
  float_eq_int f n = true -> truthy (PFloat f) = truthy (PInt n).
Proof.
  destruct f as [s | s | | s m e]; simpl; try discriminate.
  - intro H. now rewrite H.
  - destruct (0 <=? e)%Z eqn:He; intro H; apply Z.eqb_eq in H.
    + apply Z.leb_le in He.
      assert (0 < 2 ^ e)%Z by (apply Z.pow_pos_nonneg; lia).
      destruct (n =? 0)%Z eqn:Hn; [| reflexivity].
      apply Z.eqb_eq in Hn. destruct s; nia.
    + destruct (n =? 0)%Z eqn:Hn; [| reflexivity].
      apply Z.eqb_eq in Hn. subst n. destruct s; simpl in H; discriminate.
Qed.

Lemma SFeqb_zero (f g : spec_float) :
  SFeqb f g = true -> truthy (PFloat f) = truthy (PFloat g).
Proof.
  unfold SFeqb.
  destruct f as [s | s | | s m e], g as [s' | s' | | s' m' e']; simpl;
    try reflexivity; try discriminate;
    repeat match goal with b : bool |- _ => destruct b end; discriminate.
Qed.

(** Equal values have the same truth value. *)
Lemma py_eq_truthy (a b : pyval) : py_eq a b = true -> truthy a = truthy b.
Proof.
  destruct a as [| x | n | f | s | l | d], b as [| y | m | g | t | l' | d'];
    simpl; try discriminate; try reflexivity.
  - intro H. apply Bool.eqb_prop in H. now subst.
  - intro H. apply Z.eqb_eq in H. subst. now destruct x.
  - intro H. apply float_eq_int_zero in H. simpl in H.
    rewrite H. now destruct x.
  - intro H. apply Z.eqb_eq in H. subst. now destruct y.
  - intro H. apply Z.eqb_eq in H. now subst.
  - intro H. apply float_eq_int_zero in H. simpl in H. now rewrite H.
  - intro H. apply float_eq_int_zero in H. simpl in H.
    rewrite H. now destruct y.
  - intro H. now apply float_eq_int_zero in H.
  - apply SFeqb_zero.
  - intro H. apply String.eqb_eq in H. now subst.
  - destruct l, l'; simpl; congruence.
  - destruct d as [| [k v] d], d'; simpl; try discriminate; reflexivity.
Qed.

Lemma assoc_dict_set_same (d : dict) (k : string) (v : pyval) :
  assoc (dict_set d k v) k = Some v.
Proof.
  induction d as [| [k' v'] d IH]; simpl.
  - now rewrite String.eqb_refl.
  - destruct (k' =? k) eqn:E; simpl; rewrite E; auto.
Qed.

Lemma assoc_dict_set_other (d : dict) (k k' : string) (v : pyval) :
  k' <> k -> assoc (dict_set d k v) k' = assoc d k'.
Proof.
  intro Hne. induction d as [| [k0 v0] d IH]; simpl.
  - destruct (k =? k') eqn:E; [apply String.eqb_eq in E; congruence | reflexivity].
  - destruct (k0 =? k) eqn:E; simpl.
    + apply String.eqb_eq in E. subst k0.
      destruct (k =? k') eqn:E'; [apply String.eqb_eq in E'; congruence | reflexivity].
    + now rewrite IH.
Qed.

Lemma dget_dict_set_same (d : dict) (k : string) (v : pyval) :
  dget (dict_set d k v) k = v.
Proof. unfold dget. now rewrite assoc_dict_set_same. Qed.

Lemma dget_dict_set_other (d : dict) (k k' : string) (v : pyval) :
  k' <> k -> dget (dict_set d k v) k' = dget d k'.
Proof. intro H. unfold dget. now rewrite assoc_dict_set_other. Qed.

(** Assigning to a key the value it has changes nothing. *)
Lemma dict_set_same_value (d : dict) (k : string) (v : pyval) :
  assoc d k = Some v -> dict_set d k v = d.
Proof.
  induction d as [| [k' v'] d IH]; simpl; [discriminate |].
  destruct (k' =? k) eqn:E.
  - intro H. now inversion H.
  - intro H. now rewrite IH.
Qed.


(** An assignment keeps every key, in place, and adds at most its own at
    the end. *)
Lemma keys_dict_set (d : dict) (k : string) (v : pyval) :
  keys (dict_set d k v)
  = match assoc d k with Some _ => keys d | None => keys d ++ [k] end.
Proof.
  induction d as [| [k0 v0] d IH]; simpl; [reflexivity |].
  destruct (k0 =? k) eqn:E; simpl; [reflexivity |].
  rewrite IH. now destruct (assoc d k).
Qed.

Lemma keys_dict_set_incl (d : dict) (k k' : string) (v : pyval) :
  In k' (keys d) -> In k' (keys (dict_set d k v)).
Proof.
  rewrite keys_dict_set. destruct (assoc d k); [auto |].
  intro H. apply in_or_app. now left.
Qed.

Lemma dict_set_not_nil (d : dict) (k : string) (v : pyval) :
  dict_set d k v <> [].
Proof.
  destruct d as [| [k' v'] d]; simpl; [discriminate |].
  destruct (k' =? k); discriminate.
Qed.


(** ** The merge *)

Lemma write_if_fst_same c k v st :
  dget (fst (write_if c k v st)) k = if c then v else dget (fst st) k.
Proof. unfold write_if. destruct c; simpl; [apply dget_dict_set_same | reflexivity]. Qed.

Lemma write_if_fst_other c k k' v st :
  k' <> k -> assoc (fst (write_if c k v st)) k' = assoc (fst st) k'.
Proof.
  intro H. unfold write_if. destruct c; simpl; [now apply assoc_dict_set_other | reflexivity].
Qed.

Lemma write_if_dget_other c k k' v st :
  k' <> k -> dget (fst (write_if c k v st)) k' = dget (fst st) k'.
Proof. intro H. unfold dget. now rewrite write_if_fst_other. Qed.

Lemma write_if_snd c k v st : snd (write_if c k v st) = c || snd st.
Proof. unfold write_if. destruct c; reflexivity. Qed.

Lemma write_if_keys c k k' v st :
  In k' (keys (fst st)) -> In k' (keys (fst (write_if c k v st))).
Proof.
  unfold write_if. destruct c; simpl; [apply keys_dict_set_incl | auto].
Qed.

Lemma write_if_false k v st : write_if false k v st = st.
Proof. reflexivity. Qed.

Ltac other_keys :=
  repeat (rewrite write_if_dget_other by discriminate);
  repeat (rewrite write_if_fst_other by discriminate).

(** The value of each of the six fields after the merge, from the values
    before it. *)
Lemma merge_image_fields (img : dict) (thumb page : pyval) (meta : dict) :
  let img' := fst (merge_image img thumb page meta) in
  dget img' "thumb"
    = (if py_eq (dget img "thumb") thumb then dget img "thumb" else thumb)
  /\ dget img' "page"
    = (if truthy page && negb (py_eq (dget img "page") page)
       then page else dget img "page")
  /\ (forall k, k = "license" \/ k = "license_url" \/ k = "credit" ->
      dget img' k
      = (if truthy (dget meta k) && negb (py_eq (dget img k) (dget meta k))
         then dget meta k else dget img k))
  /\ dget img' "source" = PStr "wikimedia".
Proof.
  unfold merge_image. cbv zeta. repeat split.
  - other_keys. rewrite write_if_fst_same. simpl fst.
    now destruct (py_eq (dget img "thumb") thumb).
  - other_keys. rewrite write_if_fst_same. now other_keys.
  - intros k [-> | [-> | ->]]; other_keys; rewrite write_if_fst_same;
      now other_keys.
  - rewrite write_if_fst_same.
    match goal with |- (if negb (py_eq ?a ?b) then _ else _) = _ =>
      destruct (py_eq a b) eqn:E end; simpl; [| reflexivity].
    now apply py_eq_str in E.
Qed.

(** The merge touches no other key of the image mapping and removes
    none. *)
Lemma merge_image_frame (img : dict) (thumb page : pyval) (meta : dict) :
  let img' := fst (merge_image img thumb page meta) in
  (forall k, ~ In k ["thumb"; "page"; "license"; "license_url"; "credit"; "source"] ->
     assoc img' k = assoc img k)
  /\ (forall k, In k (keys img) -> In k (keys img')).
Proof.
  unfold merge_image. cbv zeta. split.
  - intros k Hk. simpl in Hk.
    repeat (rewrite write_if_fst_other by intuition congruence). reflexivity.
  - intros k Hk. repeat apply write_if_keys. exact Hk.
Qed.

(** [changed] is false only when no write took place. *)
Lemma merge_image_false (img : dict) (thumb page : pyval) (meta : dict) :
  snd (merge_image img thumb page meta) = false ->
  fst (merge_image img thumb page meta) = img
  /\ dget img "source" = PStr "wikimedia"
  /\ py_eq (dget img "thumb") thumb = true.
Proof.
  unfold merge_image. cbv zeta.
  rewrite !write_if_snd. simpl snd.
  rewrite !orb_false_iff. intros (H6 & H5 & H4 & H3 & H2 & H1 & _).
  rewrite H1 in *. rewrite write_if_false in *. simpl fst in *.
  rewrite H2 in *. rewrite write_if_false in *. simpl fst in *.
  rewrite H3 in *. rewrite write_if_false in *. simpl fst in *.
  rewrite H4 in *. rewrite write_if_false in *. simpl fst in *.
  rewrite H5 in *. rewrite write_if_false in *. simpl fst in *.
  rewrite H6. rewrite write_if_false. simpl fst.
  apply negb_false_iff in H6, H1.
  split; [reflexivity | split; [now apply py_eq_str in H6 | exact H1]].
Qed.

(** [changed], from the values before the merge. *)
Lemma merge_image_snd (img : dict) (thumb page : pyval) (meta : dict) :
  snd (merge_image img thumb page meta)
  = negb (py_eq (dget img "source") (PStr "wikimedia"))
    || (truthy (dget meta "credit")
        && negb (py_eq (dget img "credit") (dget meta "credit"))
        || (truthy (dget meta "license_url")
            && negb (py_eq (dget img "license_url") (dget meta "license_url"))
            || (truthy (dget meta "license")
                && negb (py_eq (dget img "license") (dget meta "license"))
                || (truthy page && negb (py_eq (dget img "page") page)
                    || (negb (py_eq (dget img "thumb") thumb) || false))))).
Proof.
  unfold merge_image. cbv zeta. rewrite !write_if_snd. other_keys. reflexivity.
Qed.

Lemma self_equal_str (s : string) : self_equal (PStr s).
Proof. apply py_eq_str_refl. Qed.

Lemma self_equal_none : self_equal PNone.
Proof. reflexivity. Qed.

(** [changed] is true only when the image mapping is another one after the
    merge. *)
Lemma merge_image_true (img : dict) (thumb page : pyval) (meta : dict) :
  self_equal thumb -> self_equal page ->
  (forall k, self_equal (dget meta k)) ->
  snd (merge_image img thumb page meta) = true ->
  fst (merge_image img thumb page meta) <> img.
Proof.
  intros Ht Hp Hm Hc Heq.
  destruct (merge_image_fields img thumb page meta) as (F1 & F2 & F3 & F4).
  cbv zeta in *. rewrite Heq in *.
  rewrite merge_image_snd in Hc.
  assert (E1 : py_eq (dget img "thumb") thumb = true).
  { destruct (py_eq (dget img "thumb") thumb) eqn:E; [reflexivity |].
    rewrite F1 in E. unfold self_equal in Ht. congruence. }
  assert (E2 : truthy page && negb (py_eq (dget img "page") page) = false).
  { destruct (truthy page && negb (py_eq (dget img "page") page)) eqn:E;
      [| reflexivity].
    apply andb_prop in E as [_ E]. rewrite F2 in E.
    unfold self_equal in Hp. rewrite Hp in E. discriminate. }
  assert (E3 : forall k, k = "license" \/ k = "license_url" \/ k = "credit" ->
            truthy (dget meta k) && negb (py_eq (dget img k) (dget meta k)) = false).
  { intros k Hk. specialize (F3 k Hk).
    destruct (truthy (dget meta k) && negb (py_eq (dget img k) (dget meta k))) eqn:E;
      [| reflexivity].
    apply andb_prop in E as [_ E]. rewrite F3 in E.
    specialize (Hm k). unfold self_equal in Hm. rewrite Hm in E. discriminate. }
  rewrite F4, py_eq_str_refl, E1, E2 in Hc.
  rewrite (E3 "license"), (E3 "license_url"), (E3 "credit") in Hc by tauto.
  discriminate.
Qed.

(** How [set_media] ends on a well-shaped record. *)
Lemma set_media_ok (poi_d : dict) (thumb page : pyval) (meta : dict)
    (media img : dict) :
  as_dict (py_or (dget poi_d "media") (PDict [])) = Ok media ->
  as_dict (py_or (dget media "image") (PDict [])) = Ok img ->
  set_media (PDict poi_d) thumb page meta
  = Ok (snd (merge_image img thumb page meta),
        PDict (dict_set poi_d "media"
                 (PDict (dict_set media "image"
                           (PDict (fst (merge_image img thumb page meta))))))).
Proof.
  intros Hm Hi. unfold set_media. simpl. rewrite Hm. simpl. rewrite Hi. simpl.
  now destruct (merge_image img thumb page meta).
Qed.

(** Conversely a call that returns found the record well shaped. *)
Lemma set_media_inv (poi thumb page : pyval) (meta : dict) (c : bool) (poi' : pyval) :
  set_media poi thumb page meta = Ok (c, poi') ->
  exists poi_d media img,
    poi = PDict poi_d
    /\ as_dict (py_or (dget poi_d "media") (PDict [])) = Ok media
    /\ as_dict (py_or (dget media "image") (PDict [])) = Ok img
    /\ c = snd (merge_image img thumb page meta)
    /\ poi' = PDict (dict_set poi_d "media"
                       (PDict (dict_set media "image"
                                 (PDict (fst (merge_image img thumb page meta)))))).
Proof.
  unfold set_media. destruct poi; simpl; try discriminate.
  destruct (as_dict (py_or (dget d "media") (PDict []))) as [media |] eqn:Hm;
    simpl; [| discriminate].
  destruct (as_dict (py_or (dget media "image") (PDict []))) as [img |] eqn:Hi;
    simpl; [| discriminate].
  destruct (merge_image img thumb page meta) as [img' ch] eqn:E.
  intro H. inversion H. subst. exists d, media, img.
  rewrite E. repeat split; assumption || reflexivity.
Qed.

(** A value that is read as a mapping and is not empty is that mapping. *)
Lemma as_dict_or_nonempty (v : pyval) (d : dict) :
  as_dict (py_or v (PDict [])) = Ok d -> d <> [] -> v = PDict d.
Proof.
  unfold py_or. destruct (truthy v) eqn:T.
  - destruct v; simpl; try discriminate. intros H _. now inversion H.
  - simpl. intros H Hne. inversion H. congruence.
Qed.

Lemma dget_assoc (d : dict) (k : string) (v : pyval) :
  dget d k = v -> v <> PNone -> assoc d k = Some v.
Proof. unfold dget. destruct (assoc d k); intros; subst; congruence. Qed.

Lemma dget_not_none_nonempty (d : dict) (k : string) :
  dget d k <> PNone -> d <> [].
Proof. destruct d; [now unfold dget | discriminate]. Qed.

(** [set_media] returns [False] only when the record is left as it was. *)
Lemma set_media_false (poi thumb page : pyval) (meta : dict) (poi' : pyval) :
  set_media poi thumb page meta = Ok (false, poi') -> poi' = poi.
Proof.
  intro H. apply set_media_inv in H as (d & media & img & -> & Hm & Hi & Hc & ->).
  symmetry in Hc. apply merge_image_false in Hc as (-> & Hs & _).
  assert (Hne : img <> []).
  { apply dget_not_none_nonempty with (k := "source"). rewrite Hs. discriminate. }
  pose proof (as_dict_or_nonempty _ Hi Hne) as Ei.
  assert (Hme : media <> []).
  { apply dget_not_none_nonempty with (k := "image"). rewrite Ei. discriminate. }
  pose proof (as_dict_or_nonempty _ Hm Hme) as Em.
  rewrite (dict_set_same_value media "image").
  - rewrite (dict_set_same_value d "media"); [reflexivity |].
    apply dget_assoc; [exact Em | discriminate].
  - apply dget_assoc; [exact Ei | discriminate].
Qed.

Lemma merge_image_not_nil (img : dict) (thumb page : pyval) (meta : dict) :
  fst (merge_image img thumb page meta) <> [].
Proof.
  apply dget_not_none_nonempty with (k := "source").
  destruct (merge_image_fields img thumb page meta) as (_ & _ & _ & F).
  cbv zeta in F. rewrite F. discriminate.
Qed.

Lemma as_dict_or_dict (d : dict) : d <> [] -> as_dict (py_or (PDict d) (PDict [])) = Ok d.
Proof. destruct d; [congruence | reflexivity]. Qed.

(** [set_media] returns [True] only when the record is another one
    afterwards, for values that equal themselves. *)
Lemma set_media_true (poi thumb page : pyval) (meta : dict) (poi' : pyval) :
  self_equal thumb -> self_equal page ->
  (forall k, self_equal (dget meta k)) ->
  set_media poi thumb page meta = Ok (true, poi') -> poi' <> poi.
Proof.
  intros Ht Hp Hmeta H Heq.
  apply set_media_inv in H as (d & media & img & -> & Hm & Hi & Hc & ->).
  symmetry in Hc. apply (merge_image_true _ Ht Hp Hmeta) in Hc.
  remember (fst (merge_image img thumb page meta)) as img' eqn:Eimg.
  assert (Hne : img' <> []) by (subst img'; apply merge_image_not_nil).
  remember (dict_set media "image" (PDict img')) as media' eqn:Emedia.
  assert (Ed : dget d "media" = PDict media').
  { inversion Heq as [E]. rewrite <- E at 1. apply dget_dict_set_same. }
  rewrite Ed, as_dict_or_dict in Hm by (subst media'; apply dict_set_not_nil).
  inversion Hm as [Em].
  assert (Ei : dget media "image" = PDict img').
  { rewrite <- Em, Emedia. apply dget_dict_set_same. }
  rewrite Ei, as_dict_or_dict in Hi by exact Hne.
  inversion Hi. congruence.
Qed.

(** ** Running the monad *)

Lemma bind_lift_ok {A B} (a : A) (f : A -> M B) : bind (lift (Ok a)) f = f a.
Proof. unfold bind, lift. simpl. now destruct (f a). Qed.

Lemma bind_lift_err {A B} (e : exn) (f : A -> M B) :
  bind (lift (Err e)) f = ([], Err e).
Proof. reflexivity. Qed.

Lemma bind_ret {A B} (a : A) (f : A -> M B) : bind (ret a) f = f a.
Proof. apply bind_lift_ok. Qed.

Lemma bind_ok_inv {A B} (m : M A) (f : A -> M B) (log : list call) (b : B) :
  bind m f = (log, Ok b) ->
  exists l1 a l2, m = (l1, Ok a) /\ f a = (l2, Ok b) /\ log = l1 ++ l2.
Proof.
  destruct m as [l1 [a | e]]; simpl; [| discriminate].
  destruct (f a) as [l2 r] eqn:E. intro H. inversion H. subst.
  now exists l1, a, l2.
Qed.

Lemma bind_ok {A B} (m : M A) (f : A -> M B) l1 a l2 r :
  m = (l1, Ok a) -> f a = (l2, r) -> bind m f = (l1 ++ l2, r).
Proof. intros -> H. simpl. now rewrite H. Qed.

Lemma lift_ok_inv {A} (r : result A) (log : list call) (a : A) :
  lift r = (log, Ok a) -> r = Ok a /\ log = [].
Proof. unfold lift. intro H. inversion H. auto. Qed.

Lemma ret_inv {A} (a b : A) (log : list call) :
  ret a = (log, Ok b) -> a = b /\ log = [].
Proof. unfold ret. intro H. inversion H. auto. Qed.

(** ** The fallback chain *)

Lemma commons_thumb_url_truthy (filename : string) (width : Z) :
  truthy (PStr (commons_thumb_url filename width)) = true.
Proof. reflexivity. Qed.

(** When the Wikidata step returns from [enrich_poi], it is with the
    result of [set_media] on the Commons URLs of the claimed file. *)
Lemma wikidata_step_some w poi width best log r :
  wikidata_step w poi width best = (log, Ok (Some r)) ->
  exists l1 ent p18 l2 meta,
    truthy best = true
    /\ wikidata_entity w best = (l1, Ok ent)
    /\ truthy ent = true
    /\ wikidata_p18_filename ent = Some p18
    /\ commons_imageinfo w p18 = (l2, Ok meta)
    /\ set_media poi (PStr (commons_thumb_url p18 width))
         (PStr (commons_page_url p18)) meta = Ok r
    /\ log = l1 ++ l2.
Proof.
  unfold wikidata_step. destruct (truthy best) eqn:Tb.
  - intro H. apply bind_ok_inv in H as (l1 & ent & l' & He & H & ->).
    destruct (truthy ent) eqn:Te.
    + destruct (wikidata_p18_filename ent) as [p18 |] eqn:Ep.
      * apply bind_ok_inv in H as (l2 & meta & l3 & Hm & H & ->).
        apply bind_ok_inv in H as (l4 & r' & l5 & Hs & H & ->).
        apply lift_ok_inv in Hs as [Hs ->].
        apply ret_inv in H as [E ->]. inversion E. subst r'.
        exists l1, ent, p18, l2, meta. rewrite !app_nil_r. auto 10.
      * apply ret_inv in H as [E _]. discriminate.
    + apply ret_inv in H as [E _]. discriminate.
  - intro H. apply ret_inv in H as [E _]. discriminate.
Qed.

(** A call of [enrich_poi] that returns either left the record alone and
    said so, or ended in [set_media] with a thumbnail that is not
    empty. *)
Lemma enrich_poi_inv w poi width overwrite log c poi' :
  enrich_poi w poi width overwrite = (log, Ok (c, poi')) ->
  (c = false /\ poi' = poi)
  \/ exists thumb page meta,
       truthy thumb = true /\ set_media poi thumb page meta = Ok (c, poi').
Proof.
  unfold enrich_poi. intro H.
  apply bind_ok_inv in H as (l1 & existing & l2 & He & H & ->).
  destruct (truthy existing && negb overwrite) eqn:Hskip.
  - apply ret_inv in H as [E ->]. inversion E. now left.
  - apply bind_ok_inv in H as (l3 & links0 & l4 & Hl & H & ->).
    apply bind_ok_inv in H as (l5 & qid & l6 & Hq & H & ->).
    apply bind_ok_inv in H as (l7 & wiki & l8 & Hw & H & ->).
    apply bind_ok_inv in H as (l9 & [[wiki_thumb wiki_qid] wiki_page] & l10 & Hwk & H & ->).
    apply bind_ok_inv in H as (l11 & r & l12 & Hr & H & ->).
    destruct r as [r |].
    + apply ret_inv in H as [-> ->].
      apply wikidata_step_some in Hr
        as (la & ent & p18 & lb & meta & _ & _ & _ & _ & _ & Hs & _).
      right. eexists _, _, _. split; [| exact Hs]. reflexivity.
    + destruct (truthy wiki_thumb) eqn:T.
      * apply lift_ok_inv in H as [H ->]. right. eexists _, _, _. eauto.
      * apply ret_inv in H as [E ->]. inversion E. now left.
Qed.

(** ** The guard on an existing thumbnail *)

(** The guard: with a thumbnail that is not empty and [overwrite] off,
    [enrich_poi] returns at once. *)
Lemma guard_skips (w : World) (poi : pyval) (width : Z) (thumb : pyval) :
  existing_thumb poi = Ok thumb ->
  truthy thumb = true ->
  enrich_poi w poi width false = ([], Ok (false, poi)).
Proof.
  intros He Ht. unfold enrich_poi. rewrite He, bind_lift_ok, Ht. reflexivity.
Qed.

Lemma try_enrich_skips (w : World) (path : string) (poi : pyval) (width : Z)
    (thumb : pyval) :
  existing_thumb poi = Ok thumb ->
  truthy thumb = true ->
  try_enrich w path width false poi = ([], Ok (poi, false, [])).
Proof.
  intros He Ht. unfold try_enrich. now rewrite (guard_skips w poi width He Ht).
Qed.

(** C3.  No regression: a record whose [media.image.thumb] is set (not
    empty), run with [overwrite] false, comes back as it was and is
    reported as not updated, whatever the web answers; the log of calls is
    empty, and so is the list of warnings of the loop body. *)
Theorem no_regression (w : World) (path : string) (poi : pyval) (width : Z)
    (thumb : pyval) :
  existing_thumb poi = Ok thumb ->
  truthy thumb = true ->
  enrich_poi w poi width false = ([], Ok (false, poi))
  /\ try_enrich w path width false poi = ([], Ok (poi, false, [])).
Proof.
  intros He Ht. split.
  - now apply guard_skips with thumb.
  - now apply try_enrich_skips with thumb.
Qed.

Lemma no_regression_witness :
  enrich_poi menin_web (menin_gate_manual page_thumb) 900 false
  = ([], Ok (false, menin_gate_manual page_thumb))
  /\ try_enrich menin_web "data/ww1-belgium.yaml" 900 false
       (menin_gate_manual page_thumb)
     = ([], Ok (menin_gate_manual page_thumb, false, [])).
Proof.
  apply (@no_regression menin_web "data/ww1-belgium.yaml"
           (menin_gate_manual page_thumb) 900 (PStr page_thumb));
    reflexivity.
Defined.

(** ** Records without links *)

Lemma py_get_dict (d : dict) (k : string) : py_get (PDict d) k = Ok (dget d k).
Proof. reflexivity. Qed.


(** Past the guard, a record without links makes no call and is returned
    as it was. *)
Lemma enrich_poi_no_links w poi_d width overwrite existing :
  no_links poi_d ->
  existing_thumb (PDict poi_d) = Ok existing ->
  enrich_poi w (PDict poi_d) width overwrite = ([], Ok (false, PDict poi_d)).
Proof.
  intros (links & Hl & Hq & Hw) He.
  unfold enrich_poi. rewrite He, bind_lift_ok.
  destruct (truthy existing && negb overwrite); [reflexivity |].
  rewrite py_get_dict, bind_lift_ok, Hl, !py_get_dict, !bind_lift_ok.
  unfold wikipedia_step. rewrite Hw, bind_ret.
  unfold py_or at 1. rewrite Hq. reflexivity.
Qed.

(** C7.  A record with no encyclopedia reference and no entity id in its
    links is left untouched by a run, with or without [overwrite]: when its
    [media] sub-record can be read, [enrich_poi] makes no call and returns
    [False] with the record as it was (an absent [media.image] stays
    absent, and this is a result, not an exception); in every case the
    loop body keeps the record, does not count it and makes no call. *)
Theorem no_links_untouched (w : World) (path : string) (poi_d : dict)
    (width : Z) (overwrite : bool) :
  no_links poi_d ->
  (forall existing,
     existing_thumb (PDict poi_d) = Ok existing ->
     enrich_poi w (PDict poi_d) width overwrite = ([], Ok (false, PDict poi_d)))
  /\ exists ws,
       try_enrich w path width overwrite (PDict poi_d)
       = ([], Ok (PDict poi_d, false, ws)).
Proof.
  intro Hn. split.
  - intros existing He. exact (enrich_poi_no_links w width overwrite Hn He).
  - unfold try_enrich.
    destruct (existing_thumb (PDict poi_d)) as [existing | e] eqn:He.
    + rewrite (enrich_poi_no_links w width overwrite Hn He). now eexists.
    + unfold enrich_poi. rewrite He, bind_lift_err. simpl. now eexists.
Qed.

Lemma no_links_untouched_witness :
  enrich_poi no_web frituur 900 true = ([], Ok (false, frituur))
  /\ exists ws,
       try_enrich no_web "data/ww1-belgium.yaml" 900 true frituur
       = ([], Ok (frituur, false, ws)).
Proof.
  assert (Hn : no_links [("id", PStr "frituur-de-leet"); ("name", PStr "Frituur De Leet")]).
  { exists []. repeat split; reflexivity. }
  destruct (@no_links_untouched no_web "data/ww1-belgium.yaml" _ 900 true Hn)
    as [H1 H2].
  split; [| exact H2].
  apply (H1 PNone). reflexivity.
Defined.

(** ** The frame of a run *)

Lemma unchanged_outside_refl (ks : list string) (d : dict) :
  unchanged_outside ks d d.
Proof. split; [reflexivity | exists []; now rewrite app_nil_r]. Qed.

Lemma unchanged_outside_dict_set (d : dict) (k : string) (v : pyval) :
  unchanged_outside [k] d (dict_set d k v).
Proof.
  split.
  - intros k' Hk. apply assoc_dict_set_other. simpl in Hk. intuition congruence.
  - rewrite keys_dict_set. destruct (assoc d k).
    + exists []. now rewrite app_nil_r.
    + now exists [k].
Qed.

Lemma write_if_keys_prefix c k v st (base : list string) :
  (exists extra, keys (fst st) = base ++ extra) ->
  exists extra, keys (fst (write_if c k v st)) = base ++ extra.
Proof.
  intros [e E]. unfold write_if. destruct c; simpl; [| now exists e].
  destruct (unchanged_outside_dict_set (fst st) k v) as [_ [e' E']].
  exists (e ++ e'). now rewrite E', E, app_assoc.
Qed.

Lemma merge_image_unchanged_outside (img : dict) (thumb page : pyval) (meta : dict) :
  unchanged_outside image_fields img (fst (merge_image img thumb page meta)).
Proof.
  split; [apply merge_image_frame |].
  unfold merge_image. cbv zeta.
  repeat apply write_if_keys_prefix.
  exists []. simpl. now rewrite app_nil_r.
Qed.

Lemma submap_as_dict (d : dict) (k : string) (m : dict) :
  as_dict (py_or (dget d k) (PDict [])) = Ok m -> submap d k = m.
Proof.
  unfold submap. destruct (py_or (dget d k) (PDict [])); simpl; congruence.
Qed.

Lemma submap_dict_set (d : dict) (k : string) (m : dict) :
  m <> [] -> submap (dict_set d k (PDict m)) k = m.
Proof.
  intro H. unfold submap. rewrite dget_dict_set_same.
  destruct m; [congruence | reflexivity].
Qed.

(** What [set_media] leaves alone. *)
Lemma set_media_frame (poi thumb page : pyval) (meta : dict) (c : bool)
    (poi' : pyval) :
  set_media poi thumb page meta = Ok (c, poi') ->
  exists d d',
    poi = PDict d /\ poi' = PDict d'
    /\ unchanged_outside ["media"] d d'
    /\ unchanged_outside ["image"] (submap d "media") (submap d' "media")
    /\ unchanged_outside image_fields
         (submap (submap d "media") "image")
         (submap (submap d' "media") "image").
Proof.
  intro H. apply set_media_inv in H as (d & media & img & -> & Hm & Hi & _ & ->).
  eexists _, _. split; [reflexivity |]. split; [reflexivity |].
  rewrite (submap_as_dict _ _ Hm).
  rewrite submap_dict_set by apply dict_set_not_nil.
  rewrite (submap_as_dict _ _ Hi).
  rewrite submap_dict_set by apply merge_image_not_nil.
  split; [apply unchanged_outside_dict_set |].
  split; [apply unchanged_outside_dict_set | apply merge_image_unchanged_outside].
Qed.

Lemma enrich_poi_ok_dict w poi width overwrite log r :
  enrich_poi w poi width overwrite = (log, Ok r) -> exists d, poi = PDict d.
Proof.
  unfold enrich_poi. intro H.
  apply bind_ok_inv in H as (l1 & existing & l2 & He & _).
  apply lift_ok_inv in He as [He _].
  destruct poi; try discriminate. now eexists.
Qed.

(** C8.  Frame: whenever the loop body goes on to the next record, with or
    without [overwrite], whether [enrich_poi] returned or raised, the
    record is a mapping before and after; outside [media] every key has
    the value it had, inside [media] every key but [image] has, and inside
    [media.image] every key but the six fields of the engine has; at each
    of the three levels the keys are those of before, in their order,
    followed by the added ones: nothing is deleted. *)
Theorem frame_property (w : World) (path : string) (poi : pyval) (width : Z)
    (overwrite : bool) (log : list call) (poi' : pyval) (c : bool)
    (ws : list warning) :
  try_enrich w path width overwrite poi = (log, Ok (poi', c, ws)) ->
  exists d d',
    poi = PDict d /\ poi' = PDict d'
    /\ unchanged_outside ["media"] d d'
    /\ unchanged_outside ["image"] (submap d "media") (submap d' "media")
    /\ unchanged_outside image_fields
         (submap (submap d "media") "image")
         (submap (submap d' "media") "image").
Proof.
  unfold try_enrich.
  destruct (enrich_poi w poi width overwrite) as [l [[c0 p0] | e]] eqn:E.
  - intro H. inversion H. subst.
    destruct (enrich_poi_ok_dict _ _ _ _ E) as [d ->].
    apply enrich_poi_inv in E as [[_ ->] | (thumb & page & meta & _ & Hs)].
    + exists d, d. split; [reflexivity |]. split; [reflexivity |].
      split; [| split]; apply unchanged_outside_refl.
    + apply set_media_frame in Hs as (d0 & d' & E0 & -> & F).
      inversion E0. subst d0. now exists d, d'.
  - destruct poi; simpl; try discriminate.
    intro H. inversion H. subst.
    exists d, d. split; [reflexivity |]. split; [reflexivity |].
      split; [| split]; apply unchanged_outside_refl.
Qed.

Example commons_example_run_value :
  commons_example_run = (menin_gate_enriched, true, []).
Proof. reflexivity. Qed.

Lemma frame_property_witness :
  exists d d',
    menin_gate = PDict d
    /\ fst (fst (commons_example_run)) = PDict d'
    /\ unchanged_outside ["media"] d d'
    /\ unchanged_outside ["image"] (submap d "media") (submap d' "media")
    /\ unchanged_outside image_fields
         (submap (submap d "media") "image")
         (submap (submap d' "media") "image").
Proof.
  apply (@frame_property menin_web "data/ww1-belgium.yaml" menin_gate 900 false
           (fst (try_enrich menin_web "data/ww1-belgium.yaml" 900 false menin_gate))
           _ (snd (fst commons_example_run)) (snd commons_example_run)).
  reflexivity.
Defined.

(** ** The priority of the entity image *)


Lemma image_of_dict (d media img : dict) :
  as_dict (py_or (dget d "media") (PDict [])) = Ok media ->
  as_dict (py_or (dget media "image") (PDict [])) = Ok img ->
  image_of (PDict d) = Ok img.
Proof. intros Hm Hi. unfold image_of. simpl. rewrite Hm. simpl. exact Hi. Qed.

Lemma existing_thumb_image_of (poi : pyval) (img : dict) :
  image_of poi = Ok img -> existing_thumb poi = Ok (dget img "thumb").
Proof.
  unfold image_of, existing_thumb, py_get.
  destruct (as_dict poi) as [d |]; simpl; [| discriminate].
  destruct (as_dict (py_or (dget d "media") (PDict []))) as [media |];
    simpl; [| discriminate].
  intros ->. reflexivity.
Qed.

(** The image mapping after [set_media] is the merged one. *)
Lemma image_of_set_media (poi thumb page : pyval) (meta : dict) (c : bool)
    (poi' : pyval) :
  set_media poi thumb page meta = Ok (c, poi') ->
  exists img,
    image_of poi = Ok img
    /\ image_of poi' = Ok (fst (merge_image img thumb page meta)).
Proof.
  intro H. apply set_media_inv in H as (d & media & img & -> & Hm & Hi & _ & ->).
  exists img. split; [now apply image_of_dict with media |].
  unfold image_of. simpl. rewrite dget_dict_set_same.
  rewrite as_dict_or_dict by apply dict_set_not_nil. simpl.
  rewrite dget_dict_set_same. apply as_dict_or_dict, merge_image_not_nil.
Qed.

Lemma p18_truthy (ent : pyval) (p18 : string) :
  wikidata_p18_filename ent = Some p18 -> truthy ent = true.
Proof.
  destruct ent as [| | | | | | d]; try discriminate.
  destruct d; [discriminate | reflexivity].
Qed.

Lemma wikipedia_step_ok w url lang title l0 info :
  wikipedia_lang_and_title url = Some (lang, title) ->
  wikipedia_pageinfo w lang title = (l0, Ok info) ->
  wikipedia_step w (PStr url)
  = (l0, Ok (dget info "thumbnail", dget info "qid",
             py_or (dget info "page_url") (PStr url))).
Proof.
  intros Hp Hi. unfold wikipedia_step.
  assert (T : truthy (PStr url) = true).
  { simpl. destruct url; [discriminate | reflexivity]. }
  rewrite T, Hp, Hi. simpl. now rewrite app_nil_r.
Qed.

Lemma wikidata_step_ok w poi width best l1 ent p18 l2 meta :
  truthy best = true ->
  wikidata_entity w best = (l1, Ok ent) ->
  wikidata_p18_filename ent = Some p18 ->
  commons_imageinfo w p18 = (l2, Ok meta) ->
  wikidata_step w poi width best
  = (l1 ++ l2,
     match set_media poi (PStr (commons_thumb_url p18 width))
             (PStr (commons_page_url p18)) meta with
     | Ok r => Ok (Some r)
     | Err e => Err e
     end).
Proof.
  intros Tb He Hp Hm. unfold wikidata_step.
  rewrite Tb, He. simpl. rewrite (p18_truthy _ Hp), Hp, Hm. simpl.
  destruct (set_media poi (PStr (commons_thumb_url p18 width))
              (PStr (commons_page_url p18)) meta); simpl;
    now rewrite ?app_nil_r.
Qed.

(** Past the guard, with an entity that gives a file name, [enrich_poi]
    makes the three calls in the order page, entity, asset, and ends in
    [set_media] on the Commons URLs. *)
Lemma enrich_poi_entity_path w d width overwrite existing links wiki
    l0 wiki_thumb wiki_qid wiki_page l1 ent p18 l2 meta :
  existing_thumb (PDict d) = Ok existing ->
  truthy existing && negb overwrite = false ->
  py_or (dget d "links") (PDict []) = PDict links ->
  dget links "wikipedia" = wiki ->
  wikipedia_step w wiki = (l0, Ok (wiki_thumb, wiki_qid, wiki_page)) ->
  truthy (py_or (dget links "wikidata") wiki_qid) = true ->
  wikidata_entity w (py_or (dget links "wikidata") wiki_qid) = (l1, Ok ent) ->
  wikidata_p18_filename ent = Some p18 ->
  commons_imageinfo w p18 = (l2, Ok meta) ->
  enrich_poi w (PDict d) width overwrite
  = (l0 ++ l1 ++ l2,
     set_media (PDict d) (PStr (commons_thumb_url p18 width))
       (PStr (commons_page_url p18)) meta).
Proof.
  intros He Hg Hl Hw Hwk Tb Hent Hp Hm.
  unfold enrich_poi. rewrite He, bind_lift_ok, Hg.
  rewrite py_get_dict, bind_lift_ok, Hl, !py_get_dict, !bind_lift_ok.
  rewrite Hw, Hwk. simpl bind.
  rewrite (wikidata_step_ok w (PDict d) width _ Tb Hent Hp Hm).
  destruct (set_media (PDict d) (PStr (commons_thumb_url p18 width))
              (PStr (commons_page_url p18)) meta) as [r |];
    simpl; now rewrite ?app_nil_r.
Qed.

(** The thumbnail after a merge of a string is that string. *)
Lemma merge_image_thumb_str (img : dict) (t : string) (page : pyval) (meta : dict) :
  dget (fst (merge_image img (PStr t) page meta)) "thumb" = PStr t.
Proof.
  destruct (merge_image_fields img (PStr t) page meta) as (F & _).
  cbv zeta in F. rewrite F.
  destruct (py_eq (dget img "thumb") (PStr t)) eqn:E; [| reflexivity].
  now apply py_eq_str.
Qed.




Example skipped_run_keeps_page_thumbnail :
  enrich_poi menin_web (menin_gate_manual page_thumb) 900 false
  = ([], Ok (false, menin_gate_manual page_thumb))
  /\ final_thumb menin_web (menin_gate_manual page_thumb) 900 false
     = Ok (PStr page_thumb).
Proof. split; reflexivity. Qed.

Example entity_path_calls :
  fst (enrich_poi menin_web menin_gate 900 false)
  = [WikipediaQuery "en" "Menin Gate"; WikidataGet (PStr "Q1124785");
     CommonsImageInfo "Menin Gate.jpg"].
Proof. reflexivity. Qed.

(** ** The merge write rule *)

Lemma plain_self_equal (v : pyval) : plain v -> self_equal v.
Proof. intros [-> | [s ->]]; [apply self_equal_none | apply self_equal_str]. Qed.

Lemma in_meta_fields (k : string) :
  In k meta_fields -> k = "license" \/ k = "license_url" \/ k = "credit".
Proof. unfold meta_fields. simpl. intuition auto. Qed.

(** A non-empty string of the result is the value of its field after the
    merge. *)
Lemma merge_image_meta_str (img : dict) (thumb page : pyval) (meta : dict)
    (k s : string) :
  In k meta_fields -> dget meta k = PStr s -> s <> "" ->
  dget (fst (merge_image img thumb page meta)) k = PStr s.
Proof.
  intros Hk Hm Hs.
  destruct (merge_image_fields img thumb page meta) as (_ & _ & F & _).
  cbv zeta in F. rewrite F by now apply in_meta_fields. rewrite Hm.
  assert (T : truthy (PStr s) = true).
  { simpl. destruct s; [congruence | reflexivity]. }
  rewrite T. simpl andb.
  destruct (py_eq (dget img k) (PStr s)) eqn:E; [| reflexivity].
  simpl. now apply py_eq_str.
Qed.

(** C4.  Merge write rule.  When [set_media] returns: each of the five
    fields of the result takes the value of the result exactly when that
    value differs from the stored one (and, but for [thumb], is not
    empty), and keeps the stored value otherwise; [source] is
    ["wikimedia"]; the flag returned is false only if the record is the
    same afterwards, and, for a result made of strings and [None], true
    only if the record is another one.  Consequently a run with
    [overwrite] on a record whose thumbnail is already the Commons URL of
    the entity's file, and which has no license, past an entity path that
    gives license metadata, reports a change, stores each non-empty
    [license], [license_url] and [credit], and leaves [thumb] as it
    was. *)
Theorem merge_write_rule :
  (forall poi thumb page meta c poi',
     set_media poi thumb page meta = Ok (c, poi') ->
     exists img img',
       image_of poi = Ok img /\ image_of poi' = Ok img'
       /\ dget img' "thumb"
          = (if py_eq (dget img "thumb") thumb then dget img "thumb" else thumb)
       /\ dget img' "page"
          = (if truthy page && negb (py_eq (dget img "page") page)
             then page else dget img "page")
       /\ (forall k, In k meta_fields ->
           dget img' k
           = (if truthy (dget meta k) && negb (py_eq (dget img k) (dget meta k))
              then dget meta k else dget img k))
       /\ dget img' "source" = PStr "wikimedia"
       /\ (c = false -> poi' = poi)
       /\ (plain thumb -> plain page -> (forall k, plain (dget meta k)) ->
           c = true -> poi' <> poi))
  /\ (forall w d width img links l0 wiki_thumb wiki_qid wiki_page l1 ent p18
        l2 meta license,
        image_of (PDict d) = Ok img ->
        dget img "thumb" = PStr (commons_thumb_url p18 width) ->
        dget img "license" = PNone ->
        py_or (dget d "links") (PDict []) = PDict links ->
        wikipedia_step w (dget links "wikipedia")
        = (l0, Ok (wiki_thumb, wiki_qid, wiki_page)) ->
        truthy (py_or (dget links "wikidata") wiki_qid) = true ->
        wikidata_entity w (py_or (dget links "wikidata") wiki_qid) = (l1, Ok ent) ->
        wikidata_p18_filename ent = Some p18 ->
        commons_imageinfo w p18 = (l2, Ok meta) ->
        dget meta "license" = PStr license -> license <> "" ->
        exists poi' img',
          enrich_poi w (PDict d) width true = (l0 ++ l1 ++ l2, Ok (true, poi'))
          /\ image_of poi' = Ok img'
          /\ dget img' "thumb" = dget img "thumb"
          /\ (forall k s, In k meta_fields -> dget meta k = PStr s -> s <> "" ->
              dget img' k = PStr s)).
Proof.
  split.
  - intros poi thumb page meta c poi' H.
    destruct (image_of_set_media _ _ _ _ H) as (img & Hi & Hi').
    exists img, (fst (merge_image img thumb page meta)).
    destruct (merge_image_fields img thumb page meta) as (F1 & F2 & F3 & F4).
    cbv zeta in *.
    split; [exact Hi |]. split; [exact Hi' |]. split; [exact F1 |].
    split; [exact F2 |].
    split; [intros k Hk; apply F3; now apply in_meta_fields |].
    split; [exact F4 |]. split.
    + intros ->. now apply set_media_false in H.
    + intros Ht Hp Hm ->.
      eapply set_media_true; [| | | exact H].
      * now apply plain_self_equal.
      * now apply plain_self_equal.
      * intro k. now apply plain_self_equal.
  - intros w d width img links l0 wiki_thumb wiki_qid wiki_page l1 ent p18
      l2 meta license Hi Ht Hnl Hl Hwk Tb Hent Hp Hm Hlic Hne.
    pose proof (existing_thumb_image_of _ Hi) as He.
    erewrite enrich_poi_entity_path; try eassumption;
      [| now rewrite andb_false_r | reflexivity].
    unfold image_of in Hi. simpl in Hi.
    destruct (as_dict (py_or (dget d "media") (PDict []))) as [media |] eqn:Hmd;
      simpl in Hi; [| discriminate].
    pose proof (set_media_ok d (PStr (commons_thumb_url p18 width))
                  (PStr (commons_page_url p18)) meta Hmd Hi) as Hs.
    rewrite Hs.
    destruct (image_of_set_media _ _ _ _ Hs) as (img0 & Hi0 & Hi').
    rewrite (image_of_dict _ Hmd Hi) in Hi0. inversion Hi0. subst img0.
    set (m := merge_image img (PStr (commons_thumb_url p18 width))
                (PStr (commons_page_url p18)) meta) in *.
    assert (Hc : snd m = true).
    { subst m. rewrite merge_image_snd, Hlic, Hnl.
      assert (T : truthy (PStr license) = true).
      { simpl. destruct license; [congruence | reflexivity]. }
      rewrite T. simpl. now rewrite !orb_true_r. }
    rewrite Hc. eexists _, (fst m).
    split; [reflexivity |]. split; [exact Hi' |]. split.
    + subst m. now rewrite merge_image_thumb_str, Ht.
    + intros k s Hk E Hs'. subst m. now apply merge_image_meta_str.
Qed.

Lemma merge_write_rule_witness :
  (exists c poi' img img',
     set_media menin_gate (PStr page_thumb)
       (PStr "https://en.wikipedia.org/wiki/Menin_Gate") [] = Ok (c, poi')
     /\ image_of menin_gate = Ok img /\ image_of poi' = Ok img'
     /\ dget img' "thumb" = PStr page_thumb
     /\ dget img' "source" = PStr "wikimedia"
     /\ poi' <> menin_gate)
  /\ let manual := menin_gate_manual (commons_thumb_url "Menin Gate.jpg" 900) in
     exists poi' img',
       enrich_poi menin_web manual 900 true
       = ([WikipediaQuery "en" "Menin Gate"] ++ [WikidataGet (PStr "Q1124785")]
          ++ [CommonsImageInfo "Menin Gate.jpg"], Ok (true, poi'))
       /\ image_of poi' = Ok img'
       /\ dget img' "thumb"
          = dget [("thumb", PStr (commons_thumb_url "Menin Gate.jpg" 900))] "thumb"
       /\ (forall k s, In k meta_fields -> dget menin_meta k = PStr s -> s <> "" ->
           dget img' k = PStr s).
Proof.
  split.
  - edestruct (proj1 merge_write_rule menin_gate (PStr page_thumb)
                 (PStr "https://en.wikipedia.org/wiki/Menin_Gate") [])
      as (img & img' & Hi & Hi' & F1 & _ & _ & F4 & _ & Hc);
      [reflexivity |].
    eexists true, _, img, img'.
    split; [reflexivity |]. split; [exact Hi |]. split; [exact Hi' |].
    split; [| split; [exact F4 |]].
    + rewrite F1. unfold image_of in Hi. simpl in Hi. inversion Hi. reflexivity.
    + apply Hc; try reflexivity.
      * right. now eexists.
      * right. now eexists.
      * intro k. now left.
  - intro manual.
    eapply (proj2 merge_write_rule menin_web _ 900%Z _ _ _ _ _ _ _ _
              "Menin Gate.jpg" _ menin_meta "CC BY-SA 4.0");
      try reflexivity.
    discriminate.
Defined.

(** ** The fallback to the page thumbnail *)

Example sample_run :
  enrich_poi menin_web menin_gate 900 false
  = ([WikipediaQuery "en" "Menin Gate"; WikidataGet (PStr "Q1124785");
      CommonsImageInfo "Menin Gate.jpg"], Ok (true, menin_gate_enriched)).
Proof. reflexivity. Qed.

(** What the page metadata client returns: the calls it made, and a
    mapping that is empty or has the three keys, with the canonical page
    URL a string. *)
Lemma wikipedia_pageinfo_shape w lang title l info :
  wikipedia_pageinfo w lang title = (l, Ok info) ->
  l = [WikipediaQuery lang title]
  /\ (info = []
      \/ exists thumbnail qid t,
           info = [("thumbnail", thumbnail); ("qid", qid);
                   ("page_url",
                    PStr ("https://" ++ lang ++ ".wikipedia.org/wiki/" ++ t))]).
Proof.
  unfold wikipedia_pageinfo, request. intro H.
  apply bind_ok_inv in H as (l1 & j & l2 & Hj & H & ->).
  inversion Hj as [[El Ej]]. apply lift_ok_inv in H as [H ->].
  split; [reflexivity |].
  repeat match type of H with
  | rbind ?m _ = Ok _ => destruct m; simpl in H; [| discriminate]
  | (if ?c then _ else _) = Ok _ => destruct c
  | Ok _ = Ok _ => inversion H; clear H
  end; [now left | now left | right; now eexists _, _, _].
Qed.

(** An empty result touches none of the three metadata fields. *)
Lemma merge_image_no_meta (img : dict) (thumb page : pyval) (k : string) :
  In k meta_fields ->
  assoc (fst (merge_image img thumb page [])) k = assoc img k.
Proof.
  intro Hk. apply in_meta_fields in Hk.
  unfold merge_image. cbv zeta.
  change (dget [] "license") with PNone.
  change (dget [] "license_url") with PNone.
  change (dget [] "credit") with PNone.
  simpl truthy. simpl andb. rewrite !write_if_false.
  destruct Hk as [-> | [-> | ->]]; now other_keys.
Qed.

Lemma merge_image_page_str (img : dict) (thumb : pyval) (p : string) (meta : dict) :
  p <> "" -> dget (fst (merge_image img thumb (PStr p) meta)) "page" = PStr p.
Proof.
  intro Hp.
  destruct (merge_image_fields img thumb (PStr p) meta) as (_ & F & _).
  cbv zeta in F. rewrite F.
  assert (T : truthy (PStr p) = true).
  { simpl. destruct p; [congruence | reflexivity]. }
  rewrite T. simpl andb.
  destruct (py_eq (dget img "page") (PStr p)) eqn:E; [| reflexivity].
  simpl. now apply py_eq_str.
Qed.

(** C10.  A run with [overwrite] on a record whose [media] sub-record can
    be read, where the page metadata call gives a thumbnail (a non-empty
    string) and the entity step ends without a file name, stores the page
    thumbnail in [thumb] and the canonical page URL in [page], and leaves
    the bindings of [license], [license_url] and [credit] in
    [media.image] exactly as they were, present or absent: the empty
    metadata of the fallback clears nothing. *)
Theorem page_fallback_keeps_license (w : World) (d : dict) (width : Z)
    (img links : dict) (url lang title : string) (l0 : list call) (info : dict)
    (t : string) (l1 : list call) :
  image_of (PDict d) = Ok img ->
  py_or (dget d "links") (PDict []) = PDict links ->
  dget links "wikipedia" = PStr url ->
  wikipedia_lang_and_title url = Some (lang, title) ->
  wikipedia_pageinfo w lang title = (l0, Ok info) ->
  dget info "thumbnail" = PStr t -> t <> "" ->
  wikidata_step w (PDict d) width
    (py_or (dget links "wikidata") (dget info "qid")) = (l1, Ok None) ->
  exists c poi' img' page,
    enrich_poi w (PDict d) width true = (l0 ++ l1, Ok (c, poi'))
    /\ image_of poi' = Ok img'
    /\ dget img' "thumb" = PStr t
    /\ dget info "page_url" = PStr page
    /\ dget img' "page" = PStr page
    /\ forall k, In k meta_fields -> assoc img' k = assoc img k.
Proof.
  intros Hi Hl Hw Hp Hinfo Ht Hne Hstep.
  pose proof (existing_thumb_image_of _ Hi) as He.
  destruct (wikipedia_pageinfo_shape _ _ _ Hinfo) as [_ [-> | (th & q & t' & ->)]];
    [discriminate |].
  set (page := ("https://" ++ lang ++ ".wikipedia.org/wiki/" ++ t')%string) in *.
  change (dget _ "thumbnail") with th in Ht. subst th.
  unfold image_of in Hi. simpl in Hi.
  destruct (as_dict (py_or (dget d "media") (PDict []))) as [media |] eqn:Hmd;
    simpl in Hi; [| discriminate].
  pose proof (set_media_ok d (PStr t) (PStr page) [] Hmd Hi) as Hs.
  destruct (image_of_set_media _ _ _ _ Hs) as (img0 & Hi0 & Hi').
  rewrite (image_of_dict _ Hmd Hi) in Hi0. inversion Hi0. subst img0.
  eexists _, _, _, page.
  split; [| split; [exact Hi' |]].
  - unfold enrich_poi. rewrite He, bind_lift_ok, andb_false_r.
    rewrite py_get_dict, bind_lift_ok, Hl, !py_get_dict, !bind_lift_ok.
    rewrite Hw, (wikipedia_step_ok w url Hp Hinfo). simpl bind.
    change (dget _ "qid") with q in Hstep |- *. rewrite Hstep.
    change (dget _ "thumbnail") with (PStr t).
    change (dget _ "page_url") with (PStr page).
    assert (T : truthy (PStr t) = true).
    { simpl. destruct t; [congruence | reflexivity]. }
    simpl in T. rewrite T.
    change (py_or (py_or (PStr page) (PStr url)) (PStr url)) with (PStr page).
    rewrite Hs. simpl. now rewrite !app_nil_r.
  - split; [apply merge_image_thumb_str |].
    split; [reflexivity |].
    split; [now apply merge_image_page_str |].
    intros k Hk. now apply merge_image_no_meta.
Qed.

Lemma page_fallback_keeps_license_witness :
  exists c poi' img' page,
    enrich_poi web_without_claim menin_gate_enriched 900 true
    = ([WikipediaQuery "en" "Menin Gate"] ++ [WikidataGet (PStr "Q1124785")],
       Ok (c, poi'))
    /\ image_of poi' = Ok img'
    /\ dget img' "thumb" = PStr page_thumb
    /\ dget [("thumbnail", PStr page_thumb); ("qid", PStr "Q1124785");
             ("page_url", PStr "https://en.wikipedia.org/wiki/Menin_Gate")]
         "page_url" = PStr page
    /\ dget img' "page" = PStr page
    /\ forall k, In k meta_fields ->
         assoc img' k
         = assoc [("thumb", PStr (commons_thumb_url "Menin Gate.jpg" 900));
                  ("page", PStr (commons_page_url "Menin Gate.jpg"));
                  ("license", PStr "CC BY-SA 4.0");
                  ("license_url",
                   PStr "https://creativecommons.org/licenses/by-sa/4.0");
                  ("credit", PStr "Johan");
                  ("source", PStr "wikimedia")] k.
Proof.
  eapply (@page_fallback_keeps_license web_without_claim _ 900 _ _
            "https://en.wikipedia.org/wiki/Menin_Gate" "en" "Menin Gate");
    try reflexivity.
  discriminate.
Defined.

Example stale_license_after_fallback :
  image_of
    (match snd (enrich_poi web_without_claim menin_gate_enriched 900 true) with
     | Ok (_, poi') => poi'
     | Err _ => PNone
     end)
  = Ok [("thumb", PStr page_thumb);
        ("page", PStr "https://en.wikipedia.org/wiki/Menin_Gate");
        ("license", PStr "CC BY-SA 4.0");
        ("license_url", PStr "https://creativecommons.org/licenses/by-sa/4.0");
        ("credit", PStr "Johan");
        ("source", PStr "wikimedia")].
Proof. reflexivity. Qed.

(** ** The loop over the records *)

Lemma enrich_pois_cons w path width overwrite poi rest l1 poi' c ws l2 r :
  try_enrich w path width overwrite poi = (l1, Ok (poi', c, ws)) ->
  enrich_pois w path width overwrite rest = (l2, r) ->
  enrich_pois w path width overwrite (poi :: rest)
  = (l1 ++ l2,
     match r with
     | Ok (rest', n, ws') => Ok (poi' :: rest', (if c then 1 else 0) + n, ws ++ ws')
     | Err e => Err e
     end).
Proof.
  intros H1 H2. simpl. rewrite H1. simpl. rewrite H2.
  destruct r as [[[rest' n] ws'] | e]; simpl; now rewrite ?app_nil_r.
Qed.

Lemma enrich_pois_cons_inv w path width overwrite poi rest log ps n ws :
  enrich_pois w path width overwrite (poi :: rest) = (log, Ok (ps, n, ws)) ->
  exists l1 poi' c ws1 l2 rest' n' ws2,
    try_enrich w path width overwrite poi = (l1, Ok (poi', c, ws1))
    /\ enrich_pois w path width overwrite rest = (l2, Ok (rest', n', ws2))
    /\ log = l1 ++ l2 /\ ps = poi' :: rest'
    /\ n = (if c then 1 else 0) + n' /\ ws = ws1 ++ ws2.
Proof.
  simpl. intro H.
  apply bind_ok_inv in H as (l1 & [[poi' c] ws1] & l' & H1 & H & ->).
  apply bind_ok_inv in H as (l2 & [[rest' n'] ws2] & l'' & H2 & H & ->).
  apply ret_inv in H as [E ->]. inversion E. subst.
  exists l1, poi', c, ws1, l2, rest', n', ws2. rewrite app_nil_r. auto 10.
Qed.

(** The handler needs the record to be a mapping; then the loop body
    always goes on to the next record. *)
Lemma try_enrich_total w path width overwrite d :
  exists log poi' c ws,
    try_enrich w path width overwrite (PDict d) = (log, Ok (poi', c, ws)).
Proof.
  unfold try_enrich.
  destruct (enrich_poi w (PDict d) width overwrite) as [l [[c p] | e]].
  - now eexists _, _, _, _.
  - simpl. now eexists _, _, _, _.
Qed.

Lemma enrich_pois_total w path width overwrite pois :
  Forall is_mapping pois ->
  exists log ps n ws,
    enrich_pois w path width overwrite pois = (log, Ok (ps, n, ws))
    /\ length ps = length pois.
Proof.
  induction 1 as [| poi rest [d ->] _ IH].
  - now exists [], [], 0, [].
  - destruct IH as (l2 & ps & n & ws & E & Hlen).
    destruct (try_enrich_total w path width overwrite d) as (l1 & p' & c & ws1 & E1).
    erewrite enrich_pois_cons; [| exact E1 | exact E].
    eexists _, _, _, _. split; [reflexivity |]. simpl. now rewrite Hlen.
Qed.



Section Containment.

Variable file : Type.
Variable safe_load : file -> result pyval.
Variable safe_dump : pyval -> file.


End Containment.


Example batch_with_failure :
  snd (enrich_file (fun v => Ok v) (fun v => v) menin_web
         "data/ww1-belgium.yaml" 900 false
         (one_file "data/ww1-belgium.yaml" (PDict catalogue)))
  = ([WikipediaQuery "en" "Tyne Cot"; WikipediaQuery "en" "Menin Gate";
      WikidataGet (PStr "Q1124785"); CommonsImageInfo "Menin Gate.jpg"],
     Ok (Summary "data/ww1-belgium.yaml" 1
           [Warning "data/ww1-belgium.yaml" (PStr "tyne-cot") true RequestException]))
  /\ fst (enrich_file (fun v => Ok v) (fun v => v) menin_web
            "data/ww1-belgium.yaml" 900 false
            (one_file "data/ww1-belgium.yaml" (PDict catalogue)))
       "data/ww1-belgium.yaml"
     = Some (PDict [("version", PInt 1);
                    ("pois", PList [frituur; PDict tyne_cot; menin_gate_enriched])]).
Proof. split; reflexivity. Qed.

(** ** Idempotence *)

(** [enrich_poi] returns [False] only with the record as it was. *)
Lemma enrich_poi_false w poi width overwrite log poi' :
  enrich_poi w poi width overwrite = (log, Ok (false, poi')) -> poi' = poi.
Proof.
  intro H. apply enrich_poi_inv in H as [[_ ->] | (thumb & page & meta & _ & Hs)].
  - reflexivity.
  - now apply set_media_false in Hs.
Qed.

(** A thumbnail that is not empty is not empty after the merge. *)
Lemma merge_image_thumb_truthy (img : dict) (thumb page : pyval) (meta : dict) :
  truthy thumb = true ->
  truthy (dget (fst (merge_image img thumb page meta)) "thumb") = true.
Proof.
  intro T. destruct (merge_image_fields img thumb page meta) as (F & _).
  cbv zeta in F. rewrite F.
  destruct (py_eq (dget img "thumb") thumb) eqn:E; [| exact T].
  now rewrite (py_eq_truthy _ _ E).
Qed.

(** Whenever [enrich_poi] returns after a merge, the record has a
    thumbnail that is not empty. *)
Lemma enrich_poi_true_thumb w poi width overwrite log poi' :
  enrich_poi w poi width overwrite = (log, Ok (true, poi')) ->
  exists t, existing_thumb poi' = Ok t /\ truthy t = true.
Proof.
  intro H.
  apply enrich_poi_inv in H as [[E _] | (thumb & page & meta & T & Hs)];
    [discriminate |].
  destruct (image_of_set_media _ _ _ _ Hs) as (img & _ & Hi').
  eexists. split; [apply (existing_thumb_image_of _ Hi') |].
  now apply merge_image_thumb_truthy.
Qed.



Lemma enrich_pois_length w path width overwrite pois log pois' n ws :
  enrich_pois w path width overwrite pois = (log, Ok (pois', n, ws)) ->
  length pois' = length pois.
Proof.
  revert log pois' n ws.
  induction pois as [| poi rest IH]; intros log pois' n ws H.
  - simpl in H. now inversion H.
  - apply enrich_pois_cons_inv in H
      as (l1 & poi' & c & ws1 & l2 & rest' & n' & ws2 & _ & H2 & _ & -> & _ & _).
    simpl. now rewrite (IH _ _ _ _ H2).
Qed.


Section Idempotence.

Variable file : Type.
Variable safe_load : file -> result pyval.
Variable safe_dump : pyval -> file.

(** What is known of the YAML library: a dumped document loads as
    itself. *)
Hypothesis load_dump : forall v, safe_load (safe_dump v) = Ok v.

Variable w : World.
Variable width : Z.













End Idempotence.


Example second_pass :
  let run :=
    enrich_file (fun v => Ok v) (fun v => v) menin_web
      "data/ww1-belgium.yaml" 900 false in
  let fs := one_file "data/ww1-belgium.yaml" (PDict catalogue) in
  snd (run (fst (run fs)))
  = ([WikipediaQuery "en" "Tyne Cot"],
     Ok (Summary "data/ww1-belgium.yaml" 0
           [Warning "data/ww1-belgium.yaml" (PStr "tyne-cot") true RequestException]))
  /\ fst (run (fst (run fs))) "data/ww1-belgium.yaml"
     = fst (run fs) "data/ww1-belgium.yaml".
Proof. split; reflexivity. Qed.

(** ** Strings: tags and white space *)

Local Open Scope string_scope.

Lemma sapp_assoc (a b c : string) : (a ++ b) ++ c = a ++ b ++ c.
Proof. induction a as [| x a IH]; simpl; [reflexivity | now rewrite IH]. Qed.

Lemma sapp_nil_r (a : string) : a ++ "" = a.
Proof. induction a as [| x a IH]; simpl; [reflexivity | now rewrite IH]. Qed.

Lemma slength_app (a b : string) :
  String.length (a ++ b) = (String.length a + String.length b)%nat.
Proof. induction a as [| x a IH]; simpl; [reflexivity | now rewrite IH]. Qed.

Lemma until_gt_some (s body rest : string) :
  until_gt s = Some (body, rest) ->
  s = body ++ String ">" rest /\ no_gt body = true.
Proof.
  revert body rest. induction s as [| c s IH]; intros body rest; simpl.
  - discriminate.
  - destruct (Ascii.eqb_spec c ">") as [-> | Hc].
    + intro H. inversion H. auto.
    + destruct (until_gt s) as [[b r] |]; [| discriminate].
      intro H. inversion H. subst.
      destruct (IH b rest eq_refl) as [-> Hb]. simpl.
      split; [reflexivity |].
      apply Ascii.eqb_neq in Hc. now rewrite Hc, Hb.
Qed.

Lemma until_gt_app (body rest : string) :
  no_gt body = true -> until_gt (body ++ String ">" rest) = Some (body, rest).
Proof.
  induction body as [| c body IH]; simpl; [reflexivity |].
  intro H. apply andb_prop in H as [Hc Hb].
  apply negb_true_iff in Hc. now rewrite Hc, IH.
Qed.

Lemma until_gt_none (s : string) : until_gt s = None <-> no_gt s = true.
Proof.
  induction s as [| c s IH]; simpl; [tauto |].
  destruct (c =? ">")%char; simpl.
  - split; discriminate.
  - destruct (until_gt s) as [[b r] |].
    + split; [discriminate |]. intro H. apply IH in H. discriminate.
    + split; [intros _; now apply IH | reflexivity].
Qed.

(** [match_tag] finds exactly the tags that start the string. *)
Lemma match_tag_some (s rest : string) :
  match_tag s = Some rest <-> exists t, is_tag t /\ s = t ++ rest.
Proof.
  split.
  - destruct s as [| c s]; simpl; [discriminate |].
    destruct (Ascii.eqb_spec c "<") as [-> | Hc].
    + destruct (until_gt s) as [[[| x body] r] |] eqn:E; try discriminate.
      intro H. inversion H. subst r.
      apply until_gt_some in E as [-> Hb].
      exists ("<" ++ String x body ++ ">"). split.
      * exists (String x body). repeat split; [discriminate | exact Hb].
      * simpl. now rewrite sapp_assoc.
    + destruct c as [[] [] [] [] [] [] [] []]; try discriminate.
      now contradiction Hc.
  - intros (t & (body & -> & Hne & Hb) & ->).
    simpl. rewrite sapp_assoc. simpl. rewrite until_gt_app by exact Hb.
    destruct body; [congruence | reflexivity].
Qed.

Lemma match_tag_none_lt (s : string) :
  match_tag (String "<" s) = None ->
  no_gt s = true \/ exists s', s = String ">" s'.
Proof.
  simpl. destruct (until_gt s) as [[[| x body] r] |] eqn:E; try discriminate.
  - intros _. right. apply until_gt_some in E as [-> _]. now eexists.
  - intros _. left. now apply until_gt_none.
Qed.

Lemma match_tag_shorter (s rest : string) :
  match_tag s = Some rest -> (String.length rest < String.length s)%nat.
Proof.
  intro H. apply match_tag_some in H as (t & (body & -> & _) & ->).
  simpl. rewrite slength_app. lia.
Qed.

Lemma contains_tag_eq (s : string) :
  contains_tag s
  = match match_tag s with
    | Some _ => true
    | None =>
        match s with
        | "" => false
        | String _ s' => contains_tag s'
        end
    end.
Proof. now destruct s. Qed.

Lemma has_tag_contains (s : string) : has_tag s -> contains_tag s = true.
Proof.
  intros (a & t & b & -> & Ht).
  induction a as [| c a IH].
  - simpl (_ ++ _).
    assert (E : match_tag (t ++ b) = Some b) by (apply match_tag_some; eauto).
    now rewrite contains_tag_eq, E.
  - change (String c a ++ t ++ b) with (String c (a ++ t ++ b)).
    rewrite contains_tag_eq.
    destruct (match_tag (String c (a ++ t ++ b))); [reflexivity | exact IH].
Qed.

(** Without a [>] there is nothing to delete. *)
Lemma re_sub_tags_no_gt (n : nat) (s : string) :
  no_gt s = true -> re_sub_tags_n n s = s.
Proof.
  revert s. induction n as [| n IH]; intros s H; [reflexivity |].
  simpl re_sub_tags_n.
  destruct (match_tag s) as [rest |] eqn:E.
  - apply match_tag_some in E as (t & (body & -> & _ & Hb) & ->).
    simpl in H. rewrite sapp_assoc in H.
    assert (X : forall a b, no_gt (a ++ String ">" b) = false)
      by (induction a; intros; simpl; [reflexivity | now rewrite IHa, andb_false_r]).
    simpl in H. now rewrite X in H.
  - destruct s as [| c s]; [reflexivity |].
    simpl in H. apply andb_prop in H as [_ H]. now rewrite IH.
Qed.

(** What is left after the substitution holds no tag. *)
Lemma contains_tag_re_sub (n : nat) (s : string) :
  (String.length s <= n)%nat -> contains_tag (re_sub_tags_n n s) = false.
Proof.
  revert s. induction n as [| n IH]; intros s Hlen.
  - destruct s; [reflexivity | simpl in Hlen; lia].
  - simpl re_sub_tags_n.
    destruct (match_tag s) as [rest |] eqn:E.
    + apply IH. apply match_tag_shorter in E. lia.
    + destruct s as [| c s]; [reflexivity |].
      simpl in Hlen.
      assert (Hs : contains_tag (re_sub_tags_n n s) = false) by (apply IH; lia).
      rewrite contains_tag_eq, Hs.
      destruct (match_tag (String c (re_sub_tags_n n s))) as [r |] eqn:E';
        [| reflexivity].
      exfalso.
      destruct (Ascii.eqb_spec c "<") as [-> | Hc].
      * apply match_tag_none_lt in E as [Hng | [s' ->]].
        -- rewrite (re_sub_tags_no_gt n s Hng) in E'.
           simpl in E'. apply until_gt_none in Hng. now rewrite Hng in E'.
        -- destruct n as [| n]; [simpl in Hlen; lia |].
           simpl in E'. discriminate.
      * simpl in E'.
        destruct c as [[] [] [] [] [] [] [] []]; try discriminate.
        now contradiction Hc.
Qed.

Lemma re_sub_tags_tag_free (s : string) : ~ has_tag (re_sub_tags s).
Proof.
  intro H. apply has_tag_contains in H.
  unfold re_sub_tags in H. rewrite contains_tag_re_sub in H by lia.
  discriminate.
Qed.

(** The length of the string is fuel enough. *)
Lemma re_sub_tags_fuel (n : nat) (s : string) :
  (String.length s <= n)%nat -> re_sub_tags_n n s = re_sub_tags s.
Proof.
  unfold re_sub_tags.
  assert (G : forall n m s, (String.length s <= n)%nat ->
            (String.length s <= m)%nat ->
            re_sub_tags_n n s = re_sub_tags_n m s).
  { clear n s. induction n as [| n IH]; intros m s Hn Hm.
    - destruct s; [now destruct m | simpl in Hn; lia].
    - destruct m as [| m]; [destruct s; [reflexivity | simpl in Hm; lia] |].
      simpl. destruct (match_tag s) as [rest |] eqn:E.
      + apply match_tag_shorter in E. apply IH; lia.
      + destruct s as [| c s]; [reflexivity |].
        simpl in Hn, Hm. f_equal. apply IH; lia. }
  intro H. apply G; [exact H | lia].
Qed.

Lemma list_ascii_app (a b : string) :
  list_ascii_of_string (a ++ b)
  = (list_ascii_of_string a ++ list_ascii_of_string b)%list.
Proof. induction a as [| x a IH]; simpl; [reflexivity | now rewrite IH]. Qed.

Lemma string_of_list_app (l m : list ascii) :
  string_of_list_ascii (l ++ m)%list
  = string_of_list_ascii l ++ string_of_list_ascii m.
Proof. induction l as [| x l IH]; simpl; [reflexivity | now rewrite IH]. Qed.

Lemma string_rev_app (a b : string) :
  string_rev (a ++ b) = string_rev b ++ string_rev a.
Proof.
  unfold string_rev. now rewrite list_ascii_app, rev_app_distr, string_of_list_app.
Qed.

Lemma string_rev_involutive (s : string) : string_rev (string_rev s) = s.
Proof.
  unfold string_rev.
  now rewrite list_ascii_of_string_of_list_ascii, rev_involutive,
    string_of_list_ascii_of_string.
Qed.

(** Stripping on the left leaves a suffix. *)
Lemma lstrip_with_suffix w2 w3 (s : string) :
  exists a, s = a ++ lstrip_with w2 w3 s.
Proof.
  assert (G : forall n s, (String.length s <= n)%nat ->
            exists a, s = a ++ lstrip_with w2 w3 s).
  { clear s. induction n as [| n IH]; intros s Hn.
    - destruct s; [now exists "" | simpl in Hn; lia].
    - destruct s as [| c1 s1]; [now exists "" |].
      simpl in Hn. simpl.
      destruct (space1 c1).
      + destruct (IH s1) as [a Ha]; [lia |].
        exists (String c1 a). simpl. now rewrite <- Ha.
      + destruct s1 as [| c2 s2]; [now exists "" |].
        simpl in Hn. destruct (w2 c1 c2).
        * destruct (IH s2) as [a Ha]; [lia |].
          exists (String c1 (String c2 a)). simpl. now rewrite <- Ha.
        * destruct s2 as [| c3 s3]; [now exists "" |].
          simpl in Hn. destruct (w3 c1 c2 c3); [| now exists ""].
          destruct (IH s3) as [a Ha]; [lia |].
          exists (String c1 (String c2 (String c3 a))). simpl. now rewrite <- Ha. }
  now apply (G (String.length s)).
Qed.

(** [str.strip()] returns a part of the string. *)
Lemma py_strip_substring (s : string) :
  exists a b, s = a ++ py_strip s ++ b.
Proof.
  unfold py_strip, rstrip, lstrip.
  destruct (lstrip_with_suffix space2 space3 s) as [a Ha].
  set (l := lstrip_with space2 space3 s) in *.
  destruct (lstrip_with_suffix (fun a b => space2 b a)
              (fun a b c => space3 c b a) (string_rev l)) as [b Hb].
  set (r := lstrip_with _ _ (string_rev l)) in *.
  exists a, (string_rev b).
  rewrite <- string_rev_app, <- Hb, string_rev_involutive. exact Ha.
Qed.

Lemma has_tag_inside (a s b : string) : has_tag s -> has_tag (a ++ s ++ b).
Proof.
  intros (x & t & y & -> & Ht). exists (a ++ x), t, (y ++ b).
  split; [| exact Ht]. now rewrite !sapp_assoc.
Qed.

Lemma py_strip_tag_free (s : string) : ~ has_tag s -> ~ has_tag (py_strip s).
Proof.
  intros H Hs. apply H.
  destruct (py_strip_substring s) as (a & b & E).
  rewrite E. now apply has_tag_inside.
Qed.


Lemma cleaned_truthy (v : pyval) : cleaned v -> truthy v = true -> v <> PNone.
Proof. intros _ T ->. discriminate. Qed.

Lemma _v_cleaned (ext : pyval) (k : string) (v : pyval) :
  _v ext k = Ok v -> cleaned v.
Proof.
  unfold _v.
  destruct (py_get ext k) as [entry |]; simpl; [| discriminate].
  destruct (py_get (py_or entry (PDict [])) "value") as [val |]; simpl;
    [| discriminate].
  destruct val; intro H; inversion H; try (now left).
  destruct (String.eqb_spec (py_strip (re_sub_tags s)) "") as [E | E].
  - now left.
  - right. now exists s.
Qed.



(** ** Asset URLs and metadata *)










Example user_credit_is_stored :
  image_of
    (match snd (enrich_poi bot_web menin_gate 900 false) with
     | Ok (_, poi') => poi'
     | Err _ => PNone
     end)
  = Ok [("thumb", PStr (commons_thumb_url "Menin Gate.jpg" 900));
        ("page", PStr (commons_page_url "Menin Gate.jpg"));
        ("credit", PStr "<b>Bot</b>");
        ("source", PStr "wikimedia")].
Proof. reflexivity. Qed.

Example scenario_c_urls :
  commons_thumb_url "Example.jpg" 900
  = "https://commons.wikimedia.org/wiki/Special:FilePath/Example.jpg?width=900"
  /\ commons_page_url "Example.jpg"
     = "https://commons.wikimedia.org/wiki/File:Example.jpg".
Proof. split; reflexivity. Qed.

(** ** The reference parser *)

Lemma strip_prefix_some (p s r : string) :
  strip_prefix p s = Some r <-> s = p ++ r.
Proof.
  revert s. induction p as [| a p IH]; intro s; simpl.
  - split; [intro H; now inversion H | now intros ->].
  - destruct s as [| b s]; [split; discriminate |].
    destruct (Ascii.eqb_spec a b) as [-> | Hab].
    + rewrite IH. split; [now intros -> | intro H; now inversion H].
    + split; [discriminate | intro H; inversion H; congruence].
Qed.

Lemma span_some (p : ascii -> bool) (s a b : string) :
  span p s = (a, b) ->
  s = a ++ b /\ all_chars p a = true
  /\ (b = "" \/ exists c b', b = String c b' /\ p c = false).
Proof.
  revert a b. induction s as [| c s IH]; intros a b; simpl.
  - intro H. inversion H. auto.
  - destruct (p c) eqn:Hc.
    + destruct (span p s) as [a' b']. intro H. inversion H. subst.
      destruct (IH a' b eq_refl) as (-> & Ha & Hb).
      simpl. rewrite Hc, Ha. auto.
    + intro H. inversion H. subst. repeat split. right. now exists c, s.
Qed.

Lemma span_app (p : ascii -> bool) (a b : string) :
  all_chars p a = true ->
  (b = "" \/ exists c b', b = String c b' /\ p c = false) ->
  span p (a ++ b) = (a, b).
Proof.
  intros Ha Hb. induction a as [| c a IH]; simpl.
  - destruct Hb as [-> | (c & b' & -> & Hc)]; simpl; [reflexivity | now rewrite Hc].
  - simpl in Ha. apply andb_prop in Ha as [Hc Ha]. now rewrite Hc, IH.
Qed.

(** The regular expression matches exactly the references of the shape,
    with their language code and path as groups. *)
Lemma match_wikipedia_url_shape (url lang g2 : string) :
  match_wikipedia_url url = Some (lang, g2) <-> reference_shape url lang g2.
Proof.
  unfold match_wikipedia_url, reference_shape. split.
  - intro H.
    assert (Hs : exists scheme r,
               (scheme = "http" \/ scheme = "https")
               /\ url = scheme ++ "://" ++ r
               /\ match (let (lang0, r1) := span is_lang_char r in
                         if lang0 =? "" then None
                         else
                           match strip_prefix ".wikipedia.org/wiki/" r1 with
                           | None => None
                           | Some r2 =>
                               let (t, r3) := span not_newline r2 in
                               if t =? "" then None
                               else if (r3 =? "") || (r3 =? String newline "")
                                    then Some (lang0, t) else None
                           end) with
                  | Some x => x = (lang, g2)
                  | None => False
                  end).
    { destruct (strip_prefix "https://" url) as [r |] eqn:E1.
      - apply strip_prefix_some in E1. exists "https", r.
        rewrite H. auto.
      - destruct (strip_prefix "http://" url) as [r |] eqn:E2; [| discriminate].
        apply strip_prefix_some in E2. exists "http", r. rewrite H. auto. }
    destruct Hs as (scheme & r & Hscheme & -> & Hm).
    destruct (span is_lang_char r) as [lang0 r1] eqn:E1.
    destruct (String.eqb_spec lang0 "") as [| Hl]; [contradiction |].
    destruct (strip_prefix ".wikipedia.org/wiki/" r1) as [r2 |] eqn:E2;
      [| contradiction].
    destruct (span not_newline r2) as [t r3] eqn:E3.
    destruct (String.eqb_spec t "") as [| Ht]; [contradiction |].
    destruct ((r3 =? "") || (r3 =? String newline "")) eqn:E4; [| contradiction].
    inversion Hm. subst lang0 t.
    apply span_some in E1 as (-> & Hlang & _).
    apply strip_prefix_some in E2 as ->.
    apply span_some in E3 as (-> & Hg2 & _).
    exists scheme, r3. repeat split; try assumption.
    apply orb_prop in E4 as [E | E]; apply String.eqb_eq in E; auto.
  - intros (scheme & tail & -> & Hscheme & Hl & Hlang & Hg & Hg2 & Htail).
    assert (E : match strip_prefix "https://"
                        (scheme ++ "://" ++ lang ++ ".wikipedia.org/wiki/" ++ g2 ++ tail)
                with
                | Some r => Some r
                | None =>
                    strip_prefix "http://"
                      (scheme ++ "://" ++ lang ++ ".wikipedia.org/wiki/" ++ g2 ++ tail)
                end = Some (lang ++ ".wikipedia.org/wiki/" ++ g2 ++ tail)).
    { destruct Hscheme as [-> | ->]; reflexivity. }
    rewrite E. clear E.
    rewrite (@span_app is_lang_char lang (".wikipedia.org/wiki/" ++ g2 ++ tail) Hlang)
      by (right; now eexists _, _).
    destruct (String.eqb_spec lang "") as [| _]; [contradiction |].
    rewrite (proj2 (strip_prefix_some ".wikipedia.org/wiki/" _ (g2 ++ tail)) eq_refl).
    rewrite (@span_app not_newline g2 tail Hg2)
      by (destruct Htail as [-> | ->]; [now left | right; now eexists _, _]).
    destruct (String.eqb_spec g2 "") as [| _]; [contradiction |].
    now destruct Htail as [-> | ->].
Qed.

(** What the parser does do: it returns a reference exactly for the URLs
    of the shape, with the fragment cut and the underscores replaced, and
    is a total function, so that it never raises. *)
Lemma wikipedia_lang_and_title_shape (url lang title : string) :
  wikipedia_lang_and_title url = Some (lang, title)
  <-> exists g2,
        reference_shape url lang g2
        /\ title = replace_char "_" " " (before_first "#" g2).
Proof.
  unfold wikipedia_lang_and_title. split.
  - destruct (url =? ""); [discriminate |].
    destruct (match_wikipedia_url url) as [[lang0 g2] |] eqn:E; [| discriminate].
    intro H. inversion H. subst. exists g2. split; [| reflexivity].
    now apply match_wikipedia_url_shape.
  - intros (g2 & Hs & ->).
    pose proof (proj2 (match_wikipedia_url_shape url lang g2) Hs) as E.
    destruct (String.eqb_spec url "") as [-> | _]; [discriminate |].
    now rewrite E.
Qed.

Lemma before_first_no_char (c : ascii) (s : string) :
  all_chars (fun x => negb (x =? c)%char) (before_first c s) = true.
Proof.
  induction s as [| x s IH]; simpl; [reflexivity |].
  destruct (x =? c)%char eqn:E; simpl; [reflexivity | now rewrite E, IH].
Qed.

Lemma replace_char_no_char (a b : ascii) (s : string) :
  a <> b ->
  all_chars (fun x => negb (x =? a)%char) (replace_char a b s) = true.
Proof.
  intro Hab. induction s as [| x s IH]; simpl; [reflexivity |].
  rewrite IH, andb_true_r.
  destruct (Ascii.eqb_spec x a) as [-> | Hx].
  - apply negb_true_iff, Ascii.eqb_neq. congruence.
  - now apply negb_true_iff, Ascii.eqb_neq.
Qed.

(** The title of a reference has no underscore and no fragment mark. *)
Lemma title_normalized (url lang title : string) :
  wikipedia_lang_and_title url = Some (lang, title) ->
  all_chars (fun x => negb (x =? "_")%char) title = true
  /\ all_chars (fun x => negb (x =? "#")%char) title = true.
Proof.
  intro H. apply wikipedia_lang_and_title_shape in H as (g2 & _ & ->).
  split; [now apply replace_char_no_char |].
  pose proof (before_first_no_char "#" g2) as B.
  induction (before_first "#" g2) as [| x t IH]; [reflexivity |].
  simpl in B |- *. apply andb_prop in B as [Bx Bt].
  rewrite (IH Bt), andb_true_r.
  destruct (Ascii.eqb_spec x "_") as [-> | _]; [reflexivity | exact Bx].
Qed.

(** C5.  The parser does not decode percent escapes.  On a reference
    whose title holds an escaped apostrophe it returns the title with
    the escape in it, where the specification asks for the decoded
    title; the rest of the normalisation is done. *)
Theorem parser_keeps_percent_escapes :
  wikipedia_lang_and_title
    "https://en.wikipedia.org/wiki/Saint_Martin%27s_Cathedral,_Ypres#History"
  = Some ("en", "Saint Martin%27s Cathedral, Ypres")
  /\ spec_lang_and_title
       "https://en.wikipedia.org/wiki/Saint_Martin%27s_Cathedral,_Ypres#History"
     = Some ("en", "Saint Martin's Cathedral, Ypres")
  /\ wikipedia_lang_and_title
       "https://en.wikipedia.org/wiki/Saint_Martin%27s_Cathedral,_Ypres#History"
     <> spec_lang_and_title
          "https://en.wikipedia.org/wiki/Saint_Martin%27s_Cathedral,_Ypres#History".
Proof. repeat split. discriminate. Qed.

Example parser_rejects :
  wikipedia_lang_and_title "" = None
  /\ wikipedia_lang_and_title "https://www.wikidata.org/wiki/Q1124785" = None
  /\ wikipedia_lang_and_title "https://en.m.wikipedia.org/wiki/Menin_Gate" = None
  /\ wikipedia_lang_and_title "https://en.wikipedia.org/wiki/" = None.
Proof. repeat split. Qed.

(** * Further properties of the script *)

(** ** The requests a call makes *)

Lemma bind_fst {A B} (m : M A) (f : A -> M B) :
  fst (bind m f)
  = match snd m with
    | Ok a => (fst m ++ fst (f a))%list
    | Err _ => fst m
    end.
Proof.
  destruct m as [l [a | e]]; simpl; [| reflexivity].
  now destruct (f a).
Qed.

Lemma bind_snd_err {A B} (m : M A) (f : A -> M B) (e : exn) :
  snd m = Err e -> snd (bind m f) = Err e.
Proof.
  destruct m as [l [a | e']]; simpl; intro H; [discriminate H |].
  now inversion H.
Qed.

Lemma request_then_lift {A} (w : World) (c : call) (k : pyval -> result A) :
  bind (request w c) (fun j => lift (k j))
  = ([c], match w c with Ok j => k j | Err e => Err e end).
Proof. unfold request, bind, lift. now destruct (w c). Qed.

Lemma wikipedia_pageinfo_log w lang title :
  fst (wikipedia_pageinfo w lang title) = [WikipediaQuery lang title].
Proof. unfold wikipedia_pageinfo. now rewrite request_then_lift. Qed.

Lemma wikidata_entity_log w qid :
  fst (wikidata_entity w qid) = [WikidataGet qid].
Proof. unfold wikidata_entity. now rewrite request_then_lift. Qed.

Lemma commons_imageinfo_log w filename :
  fst (commons_imageinfo w filename) = [CommonsImageInfo filename].
Proof. unfold commons_imageinfo. now rewrite request_then_lift. Qed.

(** The page step makes one request, for a link that parses, and none
    otherwise. *)
Lemma wikipedia_step_log w wiki :
  fst (wikipedia_step w wiki) = []
  \/ exists lang title, fst (wikipedia_step w wiki) = [WikipediaQuery lang title].
Proof.
  unfold wikipedia_step. destruct (truthy wiki); [| now left].
  destruct wiki; try (now left).
  destruct (wikipedia_lang_and_title s) as [[lang title] |]; [| now left].
  right. exists lang, title. rewrite bind_fst, wikipedia_pageinfo_log.
  now destruct (snd (wikipedia_pageinfo w lang title)).
Qed.

(** The entity step makes no request, the entity request, or the entity
    request followed by the asset request. *)
Lemma wikidata_step_log w poi width best :
  fst (wikidata_step w poi width best) = []
  \/ fst (wikidata_step w poi width best) = [WikidataGet best]
  \/ exists ent p18,
       wikidata_entity w best = ([WikidataGet best], Ok ent)
       /\ wikidata_p18_filename ent = Some p18
       /\ fst (wikidata_step w poi width best)
          = [WikidataGet best; CommonsImageInfo p18].
Proof.
  unfold wikidata_step. destruct (truthy best); [| now left].
  rewrite bind_fst.
  pose proof (wikidata_entity_log w best) as Hl.
  destruct (wikidata_entity w best) as [l [ent | e]] eqn:He; simpl in Hl |- *;
    subst l; [| now right; left].
  destruct (truthy ent); [| now right; left].
  destruct (wikidata_p18_filename ent) as [p18 |] eqn:Hp; [| now right; left].
  right. right. exists ent, p18. split; [reflexivity |]. split; [exact Hp |].
  rewrite bind_fst, commons_imageinfo_log.
  destruct (snd (commons_imageinfo w p18)) as [meta |]; [| reflexivity].
  now destruct (set_media poi (PStr (commons_thumb_url p18 width))
                  (PStr (commons_page_url p18)) meta).
Qed.

(** The log of [enrich_poi]: empty, or the requests of the page step
    followed, when that step returned, by those of the entity step for
    the stored id or else the discovered one. *)
Lemma enrich_poi_log w poi width overwrite :
  fst (enrich_poi w poi width overwrite) = []
  \/ exists d links,
       poi = PDict d
       /\ py_or (dget d "links") (PDict []) = PDict links
       /\ ((exists e, snd (wikipedia_step w (dget links "wikipedia")) = Err e
            /\ fst (enrich_poi w poi width overwrite)
               = fst (wikipedia_step w (dget links "wikipedia")))
           \/ exists wiki_thumb wiki_qid wiki_page,
                snd (wikipedia_step w (dget links "wikipedia"))
                = Ok (wiki_thumb, wiki_qid, wiki_page)
                /\ fst (enrich_poi w poi width overwrite)
                   = (fst (wikipedia_step w (dget links "wikipedia"))
                      ++ fst (wikidata_step w poi width
                                (py_or (dget links "wikidata") wiki_qid)))%list).
Proof.
  unfold enrich_poi.
  destruct (existing_thumb poi) as [existing | e] eqn:He; [| now left].
  rewrite bind_lift_ok.
  destruct (truthy existing && negb overwrite); [now left |].
  destruct poi as [| | | | | | d]; try discriminate.
  rewrite py_get_dict, bind_lift_ok.
  destruct (py_or (dget d "links") (PDict [])) as [| | | | | | links] eqn:Hl;
    try (now left).
  right. exists d, links. split; [reflexivity |]. split; [exact Hl |].
  rewrite !py_get_dict, !bind_lift_ok, bind_fst.
  destruct (wikipedia_step w (dget links "wikipedia"))
    as [lw [[[wiki_thumb wiki_qid] wiki_page] | e]]; simpl.
  - right. exists wiki_thumb, wiki_qid, wiki_page. split; [reflexivity |].
    rewrite bind_fst.
    destruct (wikidata_step w (PDict d) width
                (py_or (dget links "wikidata") wiki_qid)) as [ld [[r |] | e]];
      simpl; rewrite ?app_nil_r; try reflexivity.
    destruct (truthy wiki_thumb); simpl; now rewrite app_nil_r.
  - left. now exists e.
Qed.

(** X1.  Call discipline.  Whatever the record and the web, and however
    the call ends, [enrich_poi] makes at most three requests: at most one
    page request, then at most one entity request, then at most one asset
    request, the last one only after an entity request. *)
Theorem call_discipline (w : World) (poi : pyval) (width : Z) (overwrite : bool) :
  exists lw ld lc,
    fst (enrich_poi w poi width overwrite) = (lw ++ ld ++ lc)%list
    /\ (lw = [] \/ exists lang title, lw = [WikipediaQuery lang title])
    /\ (ld = [] \/ exists q, ld = [WikidataGet q])
    /\ (lc = [] \/ exists f, lc = [CommonsImageInfo f] /\ ld <> []).
Proof.
  destruct (enrich_poi_log w poi width overwrite)
    as [E | (d & links & -> & Hl & [(e & _ & E) | (wt & wq & wp & _ & E)])].
  - exists [], [], []. rewrite E. repeat split; now left.
  - exists (fst (wikipedia_step w (dget links "wikipedia"))), [], [].
    rewrite E, app_nil_r. split; [reflexivity |].
    split; [apply wikipedia_step_log |]. split; now left.
  - rewrite E.
    destruct (wikidata_step_log w (PDict d) width (py_or (dget links "wikidata") wq))
      as [H | [H | (ent & p18 & _ & _ & H)]]; rewrite H.
    + exists (fst (wikipedia_step w (dget links "wikipedia"))), [], [].
      split; [reflexivity |]. split; [apply wikipedia_step_log |]. split; now left.
    + exists (fst (wikipedia_step w (dget links "wikipedia"))),
        [WikidataGet (py_or (dget links "wikidata") wq)], [].
      split; [reflexivity |]. split; [apply wikipedia_step_log |].
      split; [right; now eexists | now left].
    + exists (fst (wikipedia_step w (dget links "wikipedia"))),
        [WikidataGet (py_or (dget links "wikidata") wq)], [CommonsImageInfo p18].
      split; [reflexivity |]. split; [apply wikipedia_step_log |].
      split; [right; now eexists |].
      right. exists p18. split; [reflexivity | discriminate].
Qed.

(** X2.  The stored entity id comes first.  When [links.wikidata] of a
    record is set, every entity request of [enrich_poi] is for that id,
    never for the id the encyclopedia page is linked to. *)
Theorem stored_entity_id_first (w : World) (d : dict) (width : Z)
    (overwrite : bool) (links : dict) :
  py_or (dget d "links") (PDict []) = PDict links ->
  truthy (dget links "wikidata") = true ->
  Forall (fun c => forall q, c = WikidataGet q -> q = dget links "wikidata")
    (fst (enrich_poi w (PDict d) width overwrite)).
Proof.
  intros Hl Tq. apply Forall_forall. intros c Hin q ->.
  assert (Hw : forall wiki, ~ In (WikidataGet q) (fst (wikipedia_step w wiki))).
  { intros wiki H.
    destruct (wikipedia_step_log w wiki) as [E | (lang & title & E)];
      rewrite E in H; simpl in H; [tauto | destruct H as [H | []]; discriminate]. }
  destruct (enrich_poi_log w (PDict d) width overwrite)
    as [E | (d0 & links0 & Ed & Hl0 & [(e & _ & E) | (wt & wq & wp & _ & E)])].
  - rewrite E in Hin. contradiction.
  - rewrite E in Hin. now apply Hw in Hin.
  - inversion Ed. subst d0. rewrite Hl in Hl0. inversion Hl0. subst links0.
    rewrite E in Hin. apply in_app_or in Hin as [Hin | Hin];
      [now apply Hw in Hin |].
    unfold py_or in Hin. rewrite Tq in Hin.
    destruct (wikidata_step_log w (PDict d) width (dget links "wikidata"))
      as [H | [H | (ent & p18 & _ & _ & H)]]; rewrite H in Hin; simpl in Hin.
    + contradiction.
    + destruct Hin as [Hin | []]. now inversion Hin.
    + destruct Hin as [Hin | [Hin | []]]; [now inversion Hin | discriminate].
Qed.

Lemma stored_entity_id_first_witness :
  Forall (fun c => forall q, c = WikidataGet q ->
                   q = dget [("wikipedia",
                              PStr "https://en.wikipedia.org/wiki/Menin_Gate");
                             ("wikidata", PStr "Q42")] "wikidata")
    (fst (enrich_poi menin_web (PDict menin_gate_other_id) 900 false)).
Proof.
  apply (@stored_entity_id_first menin_web menin_gate_other_id 900 false);
    reflexivity.
Defined.

Example other_id_is_requested :
  enrich_poi menin_web (PDict menin_gate_other_id) 900 false
  = ([WikipediaQuery "en" "Menin Gate"; WikidataGet (PStr "Q42")],
     Err RequestException).
Proof. reflexivity. Qed.

Lemma wikipedia_pageinfo_err w lang title e :
  w (WikipediaQuery lang title) = Err e ->
  wikipedia_pageinfo w lang title = ([WikipediaQuery lang title], Err e).
Proof. intro H. unfold wikipedia_pageinfo. now rewrite request_then_lift, H. Qed.

(** X3.  A failing page request ends the record.  Past the guard, when
    the encyclopedia link parses and the page request raises, [enrich_poi]
    raises that exception after this one request: the entity path is not
    tried, whether or not an entity id is stored. *)
Theorem page_failure_ends_record (w : World) (d : dict) (width : Z)
    (overwrite : bool) (existing : pyval) (links : dict)
    (url lang title : string) (e : exn) :
  existing_thumb (PDict d) = Ok existing ->
  truthy existing && negb overwrite = false ->
  py_or (dget d "links") (PDict []) = PDict links ->
  dget links "wikipedia" = PStr url ->
  wikipedia_lang_and_title url = Some (lang, title) ->
  w (WikipediaQuery lang title) = Err e ->
  enrich_poi w (PDict d) width overwrite = ([WikipediaQuery lang title], Err e).
Proof.
  intros He Hg Hl Hw Hp Herr.
  unfold enrich_poi. rewrite He, bind_lift_ok, Hg.
  rewrite py_get_dict, bind_lift_ok, Hl, !py_get_dict, !bind_lift_ok, Hw.
  unfold wikipedia_step.
  assert (T : truthy (PStr url) = true).
  { simpl. destruct url; [discriminate | reflexivity]. }
  rewrite T, Hp, (wikipedia_pageinfo_err w lang title Herr). reflexivity.
Qed.

Lemma page_failure_ends_record_witness :
  enrich_poi no_web (PDict (("links", menin_links) :: [])) 900 true
  = ([WikipediaQuery "en" "Menin Gate"], Err RequestException).
Proof.
  apply (@page_failure_ends_record no_web (("links", menin_links) :: []) 900 true
           PNone
           [("wikipedia", PStr "https://en.wikipedia.org/wiki/Menin_Gate");
            ("wikidata", PStr "Q1124785")]
           "https://en.wikipedia.org/wiki/Menin_Gate" "en" "Menin Gate"
           RequestException); reflexivity.
Defined.

(** X4.  A link that is no reference.  Past the guard, when the
    encyclopedia link is a string that the parser refuses, no page request
    is made and this is no error: the requests are those of the entity
    path for the stored id, and a record without a stored id is returned
    unchanged, reported as not updated, without any request. *)
Theorem unparseable_reference (w : World) (d : dict) (width : Z)
    (overwrite : bool) (existing : pyval) (links : dict) (url : string) :
  existing_thumb (PDict d) = Ok existing ->
  truthy existing && negb overwrite = false ->
  py_or (dget d "links") (PDict []) = PDict links ->
  dget links "wikipedia" = PStr url ->
  wikipedia_lang_and_title url = None ->
  fst (enrich_poi w (PDict d) width overwrite)
  = fst (wikidata_step w (PDict d) width (dget links "wikidata"))
  /\ (truthy (dget links "wikidata") = false ->
      enrich_poi w (PDict d) width overwrite = ([], Ok (false, PDict d))).
Proof.
  intros He Hg Hl Hw Hp.
  assert (Hs : wikipedia_step w (PStr url) = ret (PNone, PNone, PNone)).
  { unfold wikipedia_step. rewrite Hp. now destruct (truthy (PStr url)). }
  assert (E : enrich_poi w (PDict d) width overwrite
              = bind (wikidata_step w (PDict d) width
                        (py_or (dget links "wikidata") PNone))
                  (fun r => match r with
                            | Some r => ret r
                            | None => ret (false, PDict d)
                            end)).
  { unfold enrich_poi. rewrite He, bind_lift_ok, Hg.
    rewrite py_get_dict, bind_lift_ok, Hl, !py_get_dict, !bind_lift_ok, Hw, Hs.
    now rewrite bind_ret. }
  assert (Eq : wikidata_step w (PDict d) width (py_or (dget links "wikidata") PNone)
               = wikidata_step w (PDict d) width (dget links "wikidata")).
  { unfold py_or. destruct (truthy (dget links "wikidata")) eqn:T; [reflexivity |].
    unfold wikidata_step. now rewrite T. }
  rewrite Eq in E. split.
  - rewrite E, bind_fst.
    destruct (wikidata_step w (PDict d) width (dget links "wikidata"))
      as [l [[r |] | e]]; simpl; now rewrite ?app_nil_r.
  - intro T. rewrite E. unfold wikidata_step. now rewrite T.
Qed.

Lemma unparseable_reference_witness :
  fst (enrich_poi no_web (PDict bad_link) 900 false)
  = fst (wikidata_step no_web (PDict bad_link) 900
           (dget [("wikipedia", PStr "https://example.org/Hill_60")] "wikidata"))
  /\ (truthy (dget [("wikipedia", PStr "https://example.org/Hill_60")] "wikidata")
      = false ->
      enrich_poi no_web (PDict bad_link) 900 false = ([], Ok (false, PDict bad_link))).
Proof.
  apply (@unparseable_reference no_web bad_link 900 false PNone
           [("wikipedia", PStr "https://example.org/Hill_60")]
           "https://example.org/Hill_60"); reflexivity.
Defined.


(** ** A second merge of the same result *)

Lemma merge_image_settles (img : dict) (thumb page : pyval) (meta : dict) :
  self_equal thumb -> self_equal page ->
  (forall k, self_equal (dget meta k)) ->
  snd (merge_image (fst (merge_image img thumb page meta)) thumb page meta)
  = false.
Proof.
  intros St Sp Sm.
  destruct (merge_image_fields img thumb page meta) as (Ht & Hp & Hm & Hs).
  rewrite merge_image_snd.
  set (img' := fst (merge_image img thumb page meta)) in *.
  rewrite Hs, Ht, Hp.
  rewrite !(Hm _ (or_introl eq_refl)),
          !(Hm _ (or_intror (or_introl eq_refl))),
          !(Hm _ (or_intror (or_intror eq_refl))).
  assert (G : forall old new : pyval, self_equal new ->
            truthy new
            && negb (py_eq (if truthy new && negb (py_eq old new)
                            then new else old) new) = false).
  { intros old new S. destruct (truthy new); [| reflexivity].
    destruct (py_eq old new) eqn:E; simpl; [now rewrite E | now rewrite S]. }
  rewrite !G by auto.
  assert (Gt : py_eq (if py_eq (dget img "thumb") thumb
                      then dget img "thumb" else thumb) thumb = true).
  { destruct (py_eq (dget img "thumb") thumb) eqn:E; [exact E | exact St]. }
  rewrite Gt. reflexivity.
Qed.

(** X6.  A second merge changes nothing.  When [set_media] has returned
    for a resolution result whose values are equal to themselves (strings
    and [None] are), calling it again on the record it returned, with the
    same result, returns [False] and that record. *)
Theorem set_media_settles (poi thumb page : pyval) (meta : dict) (c : bool)
    (poi' : pyval) :
  self_equal thumb -> self_equal page ->
  (forall k, self_equal (dget meta k)) ->
  set_media poi thumb page meta = Ok (c, poi') ->
  set_media poi' thumb page meta = Ok (false, poi').
Proof.
  intros St Sp Sm H.
  destruct (image_of_set_media _ _ _ _ H) as (img & _ & Hi').
  destruct (set_media_frame _ _ _ _ H) as (d & d' & -> & -> & _).
  unfold image_of in Hi'. simpl as_dict in Hi'. simpl rbind in Hi'.
  destruct (as_dict (py_or (dget d' "media") (PDict []))) as [media' |] eqn:Em;
    [| discriminate].
  simpl in Hi'.
  pose proof (set_media_ok d' thumb page meta Em Hi') as H2.
  rewrite (@merge_image_settles img thumb page meta St Sp Sm) in H2.
  rewrite H2. f_equal. f_equal.
  now apply set_media_false in H2.
Qed.

Lemma set_media_settles_witness :
  set_media (snd menin_set_media) (PStr (commons_thumb_url "Menin Gate.jpg" 900))
    (PStr (commons_page_url "Menin Gate.jpg")) menin_meta
  = Ok (false, snd menin_set_media).
Proof.
  apply (@set_media_settles menin_gate _ _ menin_meta (fst menin_set_media));
    try reflexivity.
  intro k. unfold self_equal, menin_meta, dget. simpl.
  repeat match goal with
         | |- context [if ?b then _ else _] => destruct b
         end; reflexivity.
Defined.

(** ** The counter and the records *)

Lemma try_enrich_flag w path width overwrite poi log poi' c ws :
  try_enrich w path width overwrite poi = (log, Ok (poi', c, ws)) ->
  (c = false -> poi' = poi)
  /\ (overwrite = false -> c = true -> poi' <> poi)
  /\ (if c then 1 else 0) + length ws <= 1.
Proof.
  unfold try_enrich.
  destruct (enrich_poi w poi width overwrite) as [lg [[c0 p0] | e]] eqn:E.
  - intro H. inversion H. subst. split; [| split].
    + intros ->. now apply enrich_poi_false in E.
    + intros -> -> Heq. subst poi'.
      destruct (enrich_poi_true_thumb _ _ _ _ E) as (t & Ht & Tt).
      rewrite (guard_skips w poi width Ht Tt) in E. discriminate.
    + destruct c; simpl; lia.
  - destruct (py_get poi "id"); simpl; intro H; inversion H. subst.
    split; [reflexivity | split; [discriminate | simpl; lia]].
Qed.

Lemma enrich_pois_flags w path width overwrite pois :
  forall log pois' n ws,
    enrich_pois w path width overwrite pois = (log, Ok (pois', n, ws)) ->
    (n = 0 -> pois' = pois)
    /\ (overwrite = false -> pois' = pois -> n = 0)
    /\ n + length ws <= length pois.
Proof.
  induction pois as [| poi rest IH]; intros log pois' n ws H.
  - simpl in H. inversion H. simpl. auto.
  - apply enrich_pois_cons_inv in H
      as (l1 & poi' & c & ws1 & l2 & rest' & n' & ws2 & H1 & H2 & _ & -> & -> & ->).
    destruct (try_enrich_flag _ _ _ _ _ H1) as (F1 & F2 & F3).
    destruct (IH _ _ _ _ H2) as (G1 & G2 & G3).
    split; [| split].
    + intro Hn. destruct c; [discriminate |]. simpl in Hn.
      now rewrite F1, G1.
    + intros Ho Heq. inversion Heq. subst poi' rest'.
      destruct c; [now contradiction (F2 Ho eq_refl) |].
      simpl. now apply G2.
    + rewrite length_app. simpl length. lia.
Qed.

Lemma enrich_data_inv w path width overwrite data log data' n ws :
  enrich_data w path width overwrite data = (log, Ok (data', n, ws)) ->
  exists d l l',
    data = PDict d
    /\ py_or (dget d "pois") (PList []) = PList l
    /\ enrich_pois w path width overwrite l = (log, Ok (l', n, ws))
    /\ data' = match l with
               | [] => data
               | _ => PDict (dict_set d "pois" (PList l'))
               end.
Proof.
  unfold enrich_data. intro H.
  apply bind_ok_inv in H as (l0 & data_d & l1 & Hd & H & ->).
  apply lift_ok_inv in Hd as [Hd ->].
  destruct data; try discriminate. simpl in Hd. inversion Hd. subst d.
  destruct (py_or (dget data_d "pois") (PList [])) as [| | | | | l |] eqn:Ep;
    try (apply ret_inv in H; destruct H; discriminate);
    try discriminate.
  apply bind_ok_inv in H as (l2 & [[l' n0] ws0] & l3 & Hl & H & ->).
  apply ret_inv in H as [E ->]. inversion E. subst. clear E.
  exists data_d, l, l'. rewrite app_nil_r. simpl. auto.
Qed.

Lemma pois_entry (d : dict) (x : pyval) (l : list pyval) :
  py_or (dget d "pois") (PList []) = PList (x :: l) ->
  assoc d "pois" = Some (PList (x :: l)).
Proof.
  unfold py_or, dget.
  destruct (assoc d "pois") as [v |]; simpl; [| discriminate].
  destruct (truthy v); [now intros -> | discriminate].
Qed.

(** X7.  The counter and the document.  When the inner loop has run over
    a document and counted no change, the document in memory is the one
    that was loaded, so that skipping the write loses nothing; and without
    [overwrite] the converse holds: a document that comes out as it was
    loaded has a count of zero. *)
Theorem counter_counts_changes (w : World) (path : string) (width : Z)
    (overwrite : bool) (data : pyval) (log : list call) (data' : pyval)
    (n : nat) (ws : list warning) :
  enrich_data w path width overwrite data = (log, Ok (data', n, ws)) ->
  (n = 0 -> data' = data)
  /\ (overwrite = false -> data' = data -> n = 0).
Proof.
  intro H.
  apply enrich_data_inv in H as (d & l & l' & -> & Hp & Hl & ->).
  destruct (enrich_pois_flags _ _ _ _ _ Hl) as (F1 & F2 & _).
  destruct l as [| x l].
  - split; [reflexivity |]. intros _ _. simpl in Hl. now inversion Hl.
  - apply pois_entry in Hp. split.
    + intro Hn. rewrite (F1 Hn). f_equal. now apply dict_set_same_value.
    + intros Ho Heq. apply (F2 Ho).
      inversion Heq as [Hd].
      assert (E : dget (dict_set d "pois" (PList l')) "pois" = dget d "pois")
        by now rewrite Hd.
      rewrite dget_dict_set_same in E. unfold dget in E. rewrite Hp in E.
      now inversion E.
Qed.

Lemma counter_counts_changes_witness :
  (snd (fst catalogue_run) = 0 -> fst (fst catalogue_run) = PDict catalogue)
  /\ (false = false -> fst (fst catalogue_run) = PDict catalogue ->
      snd (fst catalogue_run) = 0).
Proof.
  apply (@counter_counts_changes menin_web "data/ww1-belgium.yaml" 900 false
           (PDict catalogue)
           (fst (enrich_data menin_web "data/ww1-belgium.yaml" 900 false
                   (PDict catalogue)))
           _ _ (snd catalogue_run)).
  reflexivity.
Defined.




(** X9.  The document around the records.  When the inner loop has run
    over a document, the document that comes out is a mapping with the
    keys of the loaded one, in their order, and every entry but [pois] as
    it was; [pois] holds as many records as before. *)
Theorem document_frame (w : World) (path : string) (width : Z)
    (overwrite : bool) (data : pyval) (log : list call) (data' : pyval)
    (n : nat) (ws : list warning) :
  enrich_data w path width overwrite data = (log, Ok (data', n, ws)) ->
  exists d d' l l',
    data = PDict d /\ data' = PDict d'
    /\ keys d' = keys d
    /\ (forall k, k <> "pois" -> assoc d' k = assoc d k)
    /\ py_or (dget d "pois") (PList []) = PList l
    /\ py_or (dget d' "pois") (PList []) = PList l'
    /\ length l' = length l.
Proof.
  intro H.
  apply enrich_data_inv in H as (d & l & l' & -> & Hp & Hl & ->).
  pose proof (enrich_pois_length _ _ _ _ _ Hl) as Hlen.
  destruct l as [| x l].
  - exists d, d, [], []. simpl in Hl. inversion Hl. subst. auto 10.
  - destruct l' as [| x' l']; [discriminate |].
    exists d, (dict_set d "pois" (PList (x' :: l'))), (x :: l), (x' :: l').
    apply pois_entry in Hp as Ha.
    repeat split; auto.
    + now rewrite keys_dict_set, Ha.
    + intros k Hk. now apply assoc_dict_set_other.
    + now rewrite dget_dict_set_same.
Qed.

Lemma document_frame_witness :
  exists d d' l l',
    PDict catalogue = PDict d /\ fst (fst catalogue_run) = PDict d'
    /\ keys d' = keys d
    /\ (forall k, k <> "pois" -> assoc d' k = assoc d k)
    /\ py_or (dget d "pois") (PList []) = PList l
    /\ py_or (dget d' "pois") (PList []) = PList l'
    /\ length l' = length l.
Proof.
  apply (@document_frame menin_web "data/ww1-belgium.yaml" 900 false
           (PDict catalogue)
           (fst (enrich_data menin_web "data/ww1-belgium.yaml" 900 false
                   (PDict catalogue)))
           _ (snd (fst catalogue_run)) (snd catalogue_run)).
  reflexivity.
Defined.

(** ** The run over the files *)

Lemma enrich_pois_app_err w path width overwrite before rest lr e :
  forall lb r,
    enrich_pois w path width overwrite before = (lb, Ok r) ->
    enrich_pois w path width overwrite rest = (lr, Err e) ->
    enrich_pois w path width overwrite (before ++ rest) = ((lb ++ lr)%list, Err e).
Proof.
  induction before as [| poi before IH]; intros lb r Hb Hr.
  - simpl in Hb. inversion Hb. subst. exact Hr.
  - destruct r as [[ps n] ws].
    apply enrich_pois_cons_inv in Hb
      as (l1 & poi' & c & ws1 & l2 & rest' & n' & ws2 & H1 & H2 & -> & _).
    change ((poi :: before) ++ rest)%list with (poi :: (before ++ rest))%list.
    rewrite (enrich_pois_cons _ _ _ _ _ _ H1 (IH _ _ H2 Hr)).
    now rewrite app_assoc.
Qed.

Lemma try_enrich_non_mapping w path width overwrite v :
  ~ is_mapping v ->
  try_enrich w path width overwrite v = ([], Err AttributeError).
Proof.
  intro Hv. unfold try_enrich, enrich_poi, existing_thumb.
  destruct v; try reflexivity. exfalso. apply Hv. now eexists.
Qed.

Section Run.

Variable file : Type.
Variable safe_load : file -> result pyval.
Variable safe_dump : pyval -> file.

Variable w : World.
Variable width : Z.
Variable overwrite : bool.

Lemma enrich_file_untouched (fs : disk file) (path p : string) :
  p <> path ->
  fst (enrich_file safe_load safe_dump w path width overwrite fs) p = fs p.
Proof.
  intro Hp. unfold enrich_file.
  destruct (load_yaml safe_load fs path) as [data | e]; [| reflexivity].
  destruct (enrich_data w path width overwrite data) as [log [[[data' n] ws] | e]];
    [| reflexivity].
  destruct n; [reflexivity |]. simpl. unfold save_yaml.
  destruct (p =? path) eqn:E; [| reflexivity].
  apply String.eqb_eq in E. contradiction.
Qed.

Lemma main_app (a b : list string) :
  forall fs : disk file,
    main safe_load safe_dump w (a ++ b) width overwrite fs
    = let ra := main safe_load safe_dump w a width overwrite fs in
      match snd (snd ra) with
      | Ok sa =>
          let rb := main safe_load safe_dump w b width overwrite (fst ra) in
          (fst rb,
           ((fst (snd ra) ++ fst (snd rb))%list,
            match snd (snd rb) with
            | Ok sb => Ok (sa ++ sb)%list
            | Err e => Err e
            end))
      | Err _ => ra
      end.
Proof.
  induction a as [| path a IH]; intro fs.
  - simpl.
    destruct (main safe_load safe_dump w b width overwrite fs)
      as [fs2 [lb [sb | e]]]; reflexivity.
  - simpl.
    destruct (enrich_file safe_load safe_dump w path width overwrite fs)
      as [fs' [log [s | e]]]; [| reflexivity].
    rewrite IH.
    destruct (main safe_load safe_dump w a width overwrite fs')
      as [fs1 [la [sa | e]]]; simpl; [| reflexivity].
    destruct (main safe_load safe_dump w b width overwrite fs1)
      as [fs2 [lb [sb | e]]]; simpl;
      now rewrite ?app_nil_r, ?app_assoc.
Qed.

(** X10.  A record that is no mapping ends the run.  When the records of
    a file are mappings up to one that is not (a string, a number, a list
    or [None]), the handler of the loop raises in its turn on
    [poi.get('id')]: the run ends on [AttributeError] at this file, after
    the requests of the records before it and no other; the file is not
    written, whatever was changed in those records, and no later file is
    read. *)
Theorem non_mapping_record_ends_run (path : string) (rest : list string)
    (fs : disk file) (data_d : dict) (before : list pyval) (v : pyval)
    (after : list pyval) :
  load_yaml safe_load fs path = Ok (PDict data_d) ->
  dget data_d "pois" = PList (before ++ v :: after) ->
  Forall is_mapping before ->
  ~ is_mapping v ->
  exists lb r,
    enrich_pois w path width overwrite before = (lb, Ok r)
    /\ main safe_load safe_dump w (path :: rest) width overwrite fs
       = (fs, (lb, Err AttributeError)).
Proof.
  intros Hload Hp Hb Hv.
  destruct (enrich_pois_total w path width overwrite Hb)
    as (lb & ps & n & ws & Eb & _).
  exists lb, (ps, n, ws). split; [exact Eb |].
  assert (Er : enrich_pois w path width overwrite (v :: after)
               = ([], Err AttributeError)).
  { simpl. now rewrite (try_enrich_non_mapping w path width overwrite Hv). }
  pose proof (@enrich_pois_app_err _ _ _ _ _ _ _ _ _ _ Eb Er) as E.
  rewrite app_nil_r in E.
  assert (Ed : enrich_data w path width overwrite (PDict data_d)
               = (lb, Err AttributeError)).
  { unfold enrich_data. simpl as_dict. rewrite bind_lift_ok, Hp.
    assert (T : py_or (PList (before ++ v :: after)) (PList [])
                = PList (before ++ v :: after)) by now destruct before.
    rewrite T, E. reflexivity. }
  simpl. unfold enrich_file. now rewrite Hload, Ed.
Qed.

(** X11.  Files in sequence.  A run over the files [a] followed by the
    files [b] is the run over [a] followed by the run over [b] on the
    files that the first left: the requests and the summaries of the two
    follow each other.  When the run over [a] ends on an exception, so
    does the whole run, with the files as they were then: the files
    written before stay written, and no file of [b] is read. *)
Theorem main_in_sequence (a b : list string) (fs : disk file) :
  (forall fs1 la sa fs2 lb rb,
     main safe_load safe_dump w a width overwrite fs = (fs1, (la, Ok sa)) ->
     main safe_load safe_dump w b width overwrite fs1 = (fs2, (lb, rb)) ->
     main safe_load safe_dump w (a ++ b) width overwrite fs
     = (fs2, ((la ++ lb)%list,
              match rb with
              | Ok sb => Ok (sa ++ sb)%list
              | Err e => Err e
              end)))
  /\ (forall fs1 la e,
        main safe_load safe_dump w a width overwrite fs = (fs1, (la, Err e)) ->
        main safe_load safe_dump w (a ++ b) width overwrite fs
        = (fs1, (la, Err e))).
Proof.
  split.
  - intros fs1 la sa fs2 lb rb Ha Hb. rewrite main_app, Ha. simpl. now rewrite Hb.
  - intros fs1 la e Ha. rewrite main_app, Ha. reflexivity.
Qed.

(** X12.  Only the files of the command line.  Whatever the run does,
    with or without [overwrite] and also when it ends on an exception, a
    file that is not among its arguments is afterwards as it was
    before. *)
Theorem main_touches_only_its_files (yamls : list string) (fs : disk file)
    (p : string) :
  ~ In p yamls ->
  fst (main safe_load safe_dump w yamls width overwrite fs) p = fs p.
Proof.
  revert fs. induction yamls as [| path rest IH]; intros fs Hp; [reflexivity |].
  simpl.
  pose proof (@enrich_file_untouched fs path p) as Hu.
  destruct (enrich_file safe_load safe_dump w path width overwrite fs)
    as [fs' [log [s | e]]]; simpl in Hu |- *.
  - specialize (IH fs').
    destruct (main safe_load safe_dump w rest width overwrite fs') as [fs'' m].
    simpl in IH |- *. rewrite IH, Hu; [reflexivity | |]; intro E; apply Hp;
      [left; now symmetry | now right].
  - apply Hu. intro E. apply Hp. left. now symmetry.
Qed.

End Run.

Lemma non_mapping_record_ends_run_witness :
  exists lb r,
    enrich_pois menin_web "data/ww1-belgium.yaml" 900 false [menin_gate]
    = (lb, Ok r)
    /\ main (fun v => Ok v) (fun v => v) menin_web
         ["data/ww1-belgium.yaml"; "data/ww1-france.yaml"] 900 false
         (one_file "data/ww1-belgium.yaml" (PDict broken_catalogue))
       = (one_file "data/ww1-belgium.yaml" (PDict broken_catalogue),
          (lb, Err AttributeError)).
Proof.
  apply (@non_mapping_record_ends_run pyval (fun v => Ok v) (fun v => v)
           menin_web 900 false "data/ww1-belgium.yaml" ["data/ww1-france.yaml"]
           (one_file "data/ww1-belgium.yaml" (PDict broken_catalogue))
           broken_catalogue [menin_gate] (PStr "tyne-cot") [frituur]).
  - reflexivity.
  - reflexivity.
  - repeat constructor. now eexists.
  - intros [d H]. discriminate H.
Defined.

Lemma main_touches_only_its_files_witness :
  fst (main (fun v => Ok v) (fun v => v) menin_web
         ["data/ww1-belgium.yaml"; "data/missing.yaml"] 900 true
         (one_file "data/ww1-belgium.yaml" (PDict catalogue)))
    "data/ww1-france.yaml"
  = one_file "data/ww1-belgium.yaml" (PDict catalogue) "data/ww1-france.yaml".
Proof.
  apply (@main_touches_only_its_files pyval (fun v => Ok v) (fun v => v)
           menin_web 900 true).
  simpl. intros [H | [H | []]]; discriminate H.
Defined.

(** ** Documents on disk *)

Section Documents.

Variable file : Type.
Variable safe_load : file -> result pyval.
Variable safe_dump : pyval -> file.

Variable w : World.
Variable width : Z.
Variable overwrite : bool.

(** X13.  An empty document is no error.  A file that parses to a falsy
    document (an empty file, [null], an empty mapping or list), or to a
    mapping whose [pois] is missing or falsy, is passed over: no request,
    no warning, a count of zero, and the file is not written. *)
Theorem empty_document_is_no_error (path : string) (fs : disk file) (f : file)
    (v : pyval) :
  fs path = Some f ->
  safe_load f = Ok v ->
  truthy v = false \/ (exists d, v = PDict d /\ truthy (dget d "pois") = false) ->
  enrich_file safe_load safe_dump w path width overwrite fs
  = (fs, ([], Ok (Summary path 0 []))).
Proof.
  intros Hf Hl Hv.
  assert (E : exists d, py_or v (PDict []) = PDict d
                        /\ truthy (dget d "pois") = false).
  { destruct Hv as [T | (d & -> & T)].
    - exists []. unfold py_or. now rewrite T.
    - exists d. split; [| exact T]. now destruct d. }
  destruct E as (d & Ev & T).
  unfold enrich_file, load_yaml. rewrite Hf, Hl. simpl rbind. rewrite Ev.
  unfold enrich_data. simpl as_dict. rewrite bind_lift_ok.
  unfold py_or. rewrite T. reflexivity.
Qed.

Hypothesis load_dump : forall v, safe_load (safe_dump v) = Ok v.


End Documents.

Lemma empty_document_is_no_error_witness :
  enrich_file (fun v => Ok v) (fun v => v) no_web "data/ww1-belgium.yaml" 900 true
    (one_file "data/ww1-belgium.yaml" PNone)
  = (one_file "data/ww1-belgium.yaml" PNone,
     ([], Ok (Summary "data/ww1-belgium.yaml" 0 []))).
Proof.
  apply (@empty_document_is_no_error pyval (fun v => Ok v) (fun v => v)
           no_web 900 true "data/ww1-belgium.yaml"
           (one_file "data/ww1-belgium.yaml" PNone) PNone PNone);
    [reflexivity | reflexivity | left; reflexivity].
Defined.


(** ** The canonical page URL *)

Lemma wikipedia_pageinfo_page_url w lang title l info u :
  wikipedia_pageinfo w lang title = (l, Ok info) ->
  dget info "page_url" = PStr u ->
  exists t0,
    u = "https://" ++ lang ++ ".wikipedia.org/wiki/" ++ replace_char " " "_" t0.
Proof.
  unfold wikipedia_pageinfo, request. intros H Hu.
  apply bind_ok_inv in H as (l1 & j & l2 & Hj & H & ->).
  apply lift_ok_inv in H as [H _].
  repeat match type of H with
  | rbind ?m _ = Ok _ => destruct m eqn:?; simpl in H; [| discriminate]
  | (if ?c then _ else _) = Ok _ => destruct c
  | Ok _ = Ok _ => inversion H; clear H
  end; subst info; try discriminate.
  match goal with
  | E : py_replace ?v _ _ = Ok _ |- _ =>
      destruct v; try discriminate; simpl in E; inversion E; subst
  end.
  cbv in Hu. inversion Hu. now eexists.
Qed.

(** X15.  The canonical page URL is a reference again.  When the page
    metadata client returns a page URL for the language and title that
    the parser took from a reference, this URL is the [https] address of
    the page on the encyclopedia of that language, it holds no space, and,
    when its path is not empty and has no newline, the parser accepts it
    and gives the same language back. *)
Theorem page_url_parses_back (w : World) (url lang title : string)
    (log : list call) (info : dict) (u : string) :
  wikipedia_lang_and_title url = Some (lang, title) ->
  wikipedia_pageinfo w lang title = (log, Ok info) ->
  dget info "page_url" = PStr u ->
  exists t,
    u = "https://" ++ lang ++ ".wikipedia.org/wiki/" ++ t
    /\ all_chars (fun c => negb (c =? " ")%char) t = true
    /\ (t <> "" -> all_chars not_newline t = true ->
        wikipedia_lang_and_title u
        = Some (lang, replace_char "_" " " (before_first "#" t))).
Proof.
  intros Hp Hi Hu.
  destruct (wikipedia_pageinfo_page_url _ _ _ Hi Hu) as (t0 & ->).
  exists (replace_char " " "_" t0). split; [reflexivity |].
  split; [now apply replace_char_no_char |].
  intros Ht Hn. apply wikipedia_lang_and_title_shape.
  exists (replace_char " " "_" t0). split; [| reflexivity].
  apply wikipedia_lang_and_title_shape in Hp
    as (g2 & (scheme & tail & _ & _ & Hl & Hlang & _) & _).
  exists "https", "". rewrite sapp_nil_r. repeat split; auto.
Qed.

Lemma page_url_parses_back_witness :
  exists t,
    "https://en.wikipedia.org/wiki/Menin_Gate"
    = "https://" ++ "en" ++ ".wikipedia.org/wiki/" ++ t
    /\ all_chars (fun c => negb (c =? " ")%char) t = true
    /\ (t <> "" -> all_chars not_newline t = true ->
        wikipedia_lang_and_title "https://en.wikipedia.org/wiki/Menin_Gate"
        = Some ("en", replace_char "_" " " (before_first "#" t))).
Proof.
  apply (@page_url_parses_back menin_web
           "http://en.wikipedia.org/wiki/Menin_Gate#History" "en" "Menin Gate"
           [WikipediaQuery "en" "Menin Gate"] menin_pageinfo
           "https://en.wikipedia.org/wiki/Menin_Gate"); reflexivity.
Defined.

(** ** Stripped values *)

Lemma lstrip_with_eq w2 w3 (s : string) :
  lstrip_with w2 w3 s
  = match s with
    | "" => ""
    | String c1 s1 =>
        if space1 c1 then lstrip_with w2 w3 s1
        else
          match s1 with
          | String c2 s2 =>
              if w2 c1 c2 then lstrip_with w2 w3 s2
              else
                match s2 with
                | String c3 s3 =>
                    if w3 c1 c2 c3 then lstrip_with w2 w3 s3 else s
                | "" => s
                end
          | "" => s
          end
    end.
Proof. destruct s; reflexivity. Qed.

(** What [lstrip_with] leaves starts with no white space. *)
Lemma lstrip_with_clean w2 w3 (s : string) :
  starts_space w2 w3 (lstrip_with w2 w3 s) = false.
Proof.
  assert (G : forall n s, (String.length s <= n)%nat ->
              starts_space w2 w3 (lstrip_with w2 w3 s) = false).
  { induction n as [| n IH]; intros s0 Hn.
    - destruct s0; [reflexivity | simpl in Hn; lia].
    - rewrite lstrip_with_eq.
      destruct s0 as [| c1 s1]; [reflexivity |]. simpl in Hn.
      destruct (space1 c1) eqn:E1; [apply IH; lia |].
      destruct s1 as [| c2 s2]; [simpl; now rewrite E1 |]. simpl in Hn.
      destruct (w2 c1 c2) eqn:E2; [apply IH; lia |].
      destruct s2 as [| c3 s3]; [simpl; now rewrite E1, E2 |]. simpl in Hn.
      destruct (w3 c1 c2 c3) eqn:E3; [apply IH; lia |].
      simpl. now rewrite E1, E2, E3. }
  now apply (G (String.length s)).
Qed.

(** A string that starts with no white space is left as it is. *)
Lemma lstrip_with_fixed w2 w3 (s : string) :
  starts_space w2 w3 s = false -> lstrip_with w2 w3 s = s.
Proof.
  intro H. rewrite lstrip_with_eq.
  destruct s as [| c1 s1]; [reflexivity |]. simpl in H.
  apply orb_false_elim in H as [E1 H]. rewrite E1.
  destruct s1 as [| c2 s2]; [reflexivity |].
  apply orb_false_elim in H as [E2 H]. rewrite E2.
  destruct s2 as [| c3 s3]; [reflexivity |]. now rewrite H.
Qed.

Lemma starts_space_prefix w2 w3 (a b : string) :
  starts_space w2 w3 (a ++ b) = false -> starts_space w2 w3 a = false.
Proof.
  destruct a as [| c1 [| c2 [| c3 a]]]; simpl; intro H.
  - reflexivity.
  - apply orb_false_elim in H as [-> _]. reflexivity.
  - apply orb_false_elim in H as [-> H].
    apply orb_false_elim in H as [-> _]. reflexivity.
  - exact H.
Qed.

Lemma rstrip_prefix (s : string) : exists b, s = rstrip s ++ b.
Proof.
  unfold rstrip.
  destruct (lstrip_with_suffix (fun a b => space2 b a)
              (fun a b c => space3 c b a) (string_rev s)) as [a Ha].
  exists (string_rev a).
  rewrite <- string_rev_app, <- Ha. now rewrite string_rev_involutive.
Qed.

Lemma py_strip_trimmed (s : string) : trimmed (py_strip s).
Proof.
  unfold trimmed, py_strip. split.
  - destruct (rstrip_prefix (lstrip s)) as [b Hb].
    apply starts_space_prefix with (b := b). rewrite <- Hb.
    apply lstrip_with_clean.
  - unfold rstrip. rewrite string_rev_involutive. apply lstrip_with_clean.
Qed.

Lemma py_strip_fixed (s : string) : trimmed s -> py_strip s = s.
Proof.
  intros [H1 H2]. unfold py_strip, lstrip, rstrip.
  rewrite (lstrip_with_fixed _ _ _ H1), (lstrip_with_fixed _ _ _ H2).
  apply string_rev_involutive.
Qed.

Lemma wikidata_p18_filename_inv (ent : pyval) (name : string) :
  wikidata_p18_filename ent = Some name ->
  exists v, name = py_strip v /\ name <> "".
Proof.
  unfold wikidata_p18_filename, wikidata_p18_filename_body. intro H.
  repeat match type of H with
  | match rbind ?m _ with _ => _ end = _ =>
      destruct m; simpl in H; [| discriminate]
  | match (if ?c then _ else _) with _ => _ end = _ => destruct c eqn:?
  | match (match ?v with _ => _ end) with _ => _ end = _ =>
      destruct v; simpl in H; try discriminate
  end; try discriminate.
  inversion H. eexists. split; [reflexivity |].
  now apply String.eqb_neq.
Qed.

(** X16.  The file name of the image claim.  A file name that the
    resolver returns is not empty and has no white space at either end,
    so that stripping it again changes nothing; and the resolver looks at
    the first value of the claim only: an entity with several values
    resolves as the entity that has the first one alone, whether that
    gives a name or not. *)
Theorem p18_filename_is_stripped :
  (forall ent name,
     wikidata_p18_filename ent = Some name ->
     name <> "" /\ trimmed name /\ py_strip name = name)
  /\ (forall e c first more,
        dget e "claims" = PDict c ->
        dget c "P18" = PList (first :: more) ->
        wikidata_p18_filename (PDict e)
        = wikidata_p18_filename
            (PDict [("claims", PDict [("P18", PList [first])])])).
Proof.
  split.
  - intros ent name H.
    apply wikidata_p18_filename_inv in H as (v & -> & Hn).
    split; [exact Hn |].
    split; [apply py_strip_trimmed | apply py_strip_fixed, py_strip_trimmed].
  - intros e c first more Hc Hp.
    unfold wikidata_p18_filename, wikidata_p18_filename_body.
    simpl py_get. simpl rbind. rewrite Hc.
    assert (T : py_or (PDict c) (PDict []) = PDict c).
    { destruct c; [discriminate Hp | reflexivity]. }
    rewrite T. simpl py_get. simpl rbind. rewrite Hp. reflexivity.
Qed.

Example padded_file_name :
  wikidata_p18_filename padded_entity = Some "Menin Gate.jpg".
Proof. reflexivity. Qed.

(** ** Tags *)

Lemma contains_tag_has_tag (s : string) : contains_tag s = true -> has_tag s.
Proof.
  induction s as [| c s IH]; rewrite contains_tag_eq.
  - simpl. discriminate.
  - destruct (match_tag (String c s)) as [rest |] eqn:E.
    + intros _. apply match_tag_some in E as (t & Ht & E).
      exists "", t, rest. split; [exact E | exact Ht].
    + intro H. destruct (IH H) as (a & t & b & -> & Ht).
      exists (String c a), t, b. split; [reflexivity | exact Ht].
Qed.

Lemma re_sub_tags_n_fixed (n : nat) :
  forall s, contains_tag s = false -> re_sub_tags_n n s = s.
Proof.
  induction n as [| n IH]; intros s H; [reflexivity |].
  rewrite contains_tag_eq in H. simpl.
  destruct (match_tag s); [discriminate |].
  destruct s as [| c s]; [reflexivity |]. now rewrite (IH _ H).
Qed.

Lemma re_sub_tags_n_length (n : nat) :
  forall s, (String.length (re_sub_tags_n n s) <= String.length s)%nat.
Proof.
  induction n as [| n IH]; intro s; [simpl; lia |].
  simpl. destruct (match_tag s) as [rest |] eqn:E.
  - apply match_tag_shorter in E. specialize (IH rest). lia.
  - destruct s as [| c s]; [simpl; lia |]. simpl. specialize (IH s). lia.
Qed.

Lemma tag_free_iff (s : string) : ~ has_tag s <-> contains_tag s = false.
Proof.
  split.
  - intro H. destruct (contains_tag s) eqn:E; [| reflexivity].
    now apply contains_tag_has_tag in E.
  - intros E H. apply has_tag_contains in H. congruence.
Qed.

(** X17.  Removing the tags.  The removal of tags, as [_v] applies it to
    a metadata value, leaves a text without tags as it is and changes
    every other text; applied to its own result it changes nothing; and
    its result is never longer than the text. *)
Theorem tag_removal_settles (s : string) :
  (re_sub_tags s = s <-> ~ has_tag s)
  /\ re_sub_tags (re_sub_tags s) = re_sub_tags s
  /\ (String.length (re_sub_tags s) <= String.length s)%nat.
Proof.
  split; [| split].
  - split.
    + intros E H. apply (re_sub_tags_tag_free s). now rewrite E.
    + intro H. apply re_sub_tags_n_fixed. now apply tag_free_iff.
  - apply re_sub_tags_n_fixed, tag_free_iff, re_sub_tags_tag_free.
  - apply re_sub_tags_n_length.
Qed.

(** X18.  A cleaned value stays as it is.  A string that [_v] returns
    has no white space at either end, and cleaning it again, tags first
    and white space after, gives the same string: [_v] on a metadata
    entry that holds this string returns it. *)
Theorem cleaned_value_settles (ext : pyval) (k s : string) :
  _v ext k = Ok (PStr s) ->
  trimmed s
  /\ py_strip (re_sub_tags s) = s
  /\ forall k', _v (PDict [(k', PDict [("value", PStr s)])]) k' = Ok (PStr s).
Proof.
  intro H. apply _v_cleaned in H as [H | (raw & H & Hn)]; [discriminate |].
  inversion H. subst s. clear H.
  assert (T : trimmed (py_strip (re_sub_tags raw))) by apply py_strip_trimmed.
  assert (F : py_strip (re_sub_tags (py_strip (re_sub_tags raw)))
              = py_strip (re_sub_tags raw)).
  { assert (E : re_sub_tags (py_strip (re_sub_tags raw))
                = py_strip (re_sub_tags raw)).
    { apply re_sub_tags_n_fixed, tag_free_iff, py_strip_tag_free,
        re_sub_tags_tag_free. }
    rewrite E. now apply py_strip_fixed. }
  split; [exact T |]. split; [exact F |].
  intro k'. unfold _v.
  assert (G : py_get (PDict [(k', PDict [("value",
                                          PStr (py_strip (re_sub_tags raw)))])]) k'
              = Ok (PDict [("value", PStr (py_strip (re_sub_tags raw)))])).
  { unfold py_get, dget. simpl. now rewrite String.eqb_refl. }
  rewrite G. simpl. rewrite F.
  destruct (String.eqb_spec (py_strip (re_sub_tags raw)) "") as [E | _];
    [contradiction | reflexivity].
Qed.

Lemma cleaned_value_settles_witness :
  trimmed "Johan"
  /\ py_strip (re_sub_tags "Johan") = "Johan"
  /\ forall k', _v (PDict [(k', PDict [("value", PStr "Johan")])]) k'
                = Ok (PStr "Johan").
Proof.
  apply (@cleaned_value_settles menin_extmetadata "Artist" "Johan").
  reflexivity.
Defined.

(** ** The pages of an asset response *)

(** X19.  The first page with image information decides.  In the pages
    of an asset response, pages whose [imageinfo] is missing or empty are
    passed over; the metadata are those of the first image information of
    the first page that has one, and no later page is looked at, whatever
    it is; when no page has image information the result is empty. *)
Theorem first_page_with_info_decides (skipped : dict) (k : string) (d : dict)
    (first : pyval) (more : list pyval) (rest : dict) :
  Forall (fun kv => exists p, snd kv = PDict p
                              /\ truthy (dget p "imageinfo") = false) skipped ->
  dget d "imageinfo" = PList (first :: more) ->
  imageinfo_pages (skipped ++ (k, PDict d) :: rest)%list = imageinfo_meta first
  /\ imageinfo_pages skipped = Ok [].
Proof.
  intros Hs Hd. induction Hs as [| [k0 v0] skipped (p & Hv & T) Hs IH].
  - split; [| reflexivity]. simpl. rewrite Hd. reflexivity.
  - simpl in Hv. subst v0. destruct IH as [IH1 IH2].
    simpl. unfold py_or. rewrite T. simpl. now split.
Qed.

Lemma first_page_with_info_decides_witness :
  imageinfo_pages two_pages = imageinfo_meta (PDict menin_imageinfo)
  /\ imageinfo_pages
       [("-1", PDict [("title", PStr "File:Menin Gate.jpg"); ("missing", PStr "")])]
     = Ok [].
Proof.
  apply (@first_page_with_info_decides
           [("-1", PDict [("title", PStr "File:Menin Gate.jpg");
                          ("missing", PStr "")])]
           "71595" [("imageinfo", PList [PDict menin_imageinfo])]
           (PDict menin_imageinfo) [] []).
  - repeat constructor. eexists. split; reflexivity.
  - reflexivity.
Defined.

(** ** The references the parser accepts *)

(** X20.  The parser accepts the references and nothing else.  It
    returns a language and a title exactly for an [http] or [https] URL of
    a language code of lower-case letters and hyphens, followed by
    [.wikipedia.org/wiki/] and a path that is not empty and has no
    newline (one final newline apart); the title is the path up to the
    first [#], underscores replaced by spaces, so that it holds neither,
    and the language code is not empty. *)
Theorem parser_accepts_references (url lang title : string) :
  (wikipedia_lang_and_title url = Some (lang, title)
   <-> exists g2,
         reference_shape url lang g2
         /\ title = replace_char "_" " " (before_first "#" g2))
  /\ (wikipedia_lang_and_title url = Some (lang, title) ->
      lang <> "" /\ all_chars is_lang_char lang = true
      /\ all_chars (fun x => negb (x =? "_")%char) title = true
      /\ all_chars (fun x => negb (x =? "#")%char) title = true).
Proof.
  split; [apply wikipedia_lang_and_title_shape |].
  intro H. destruct (title_normalized _ H) as [H1 H2].
  apply wikipedia_lang_and_title_shape in H
    as (g2 & (scheme & tail & _ & _ & Hl & Hlang & _) & _).
  auto.
Qed.

(** ** A failing entity or asset request *)

Lemma wikidata_entity_err w qid e :
  w (WikidataGet qid) = Err e ->
  wikidata_entity w qid = ([WikidataGet qid], Err e).
Proof. intro H. unfold wikidata_entity. now rewrite request_then_lift, H. Qed.

Lemma commons_imageinfo_err w filename e :
  w (CommonsImageInfo filename) = Err e ->
  commons_imageinfo w filename = ([CommonsImageInfo filename], Err e).
Proof. intro H. unfold commons_imageinfo. now rewrite request_then_lift, H. Qed.

(** X21.  No fallback after a failed request.  Past the guard, when the
    page step has returned and there is an entity id, stored or
    discovered: an entity request that raises, or an asset request that
    raises for the file name of the image claim, ends [enrich_poi] on that
    exception.  The thumbnail of the page is not used in its place, and
    neither is the Commons thumbnail, whose URL needs no metadata. *)
Theorem no_fallback_after_failure (w : World) (d : dict) (width : Z)
    (overwrite : bool) (existing : pyval) (links : dict) (l0 : list call)
    (wiki_thumb wiki_qid wiki_page : pyval) (e : exn) :
  existing_thumb (PDict d) = Ok existing ->
  truthy existing && negb overwrite = false ->
  py_or (dget d "links") (PDict []) = PDict links ->
  wikipedia_step w (dget links "wikipedia")
  = (l0, Ok (wiki_thumb, wiki_qid, wiki_page)) ->
  truthy (py_or (dget links "wikidata") wiki_qid) = true ->
  (w (WikidataGet (py_or (dget links "wikidata") wiki_qid)) = Err e ->
   enrich_poi w (PDict d) width overwrite
   = ((l0 ++ [WikidataGet (py_or (dget links "wikidata") wiki_qid)])%list, Err e))
  /\ (forall l1 ent f,
        wikidata_entity w (py_or (dget links "wikidata") wiki_qid) = (l1, Ok ent) ->
        wikidata_p18_filename ent = Some f ->
        w (CommonsImageInfo f) = Err e ->
        enrich_poi w (PDict d) width overwrite
        = ((l0 ++ l1 ++ [CommonsImageInfo f])%list, Err e)).
Proof.
  intros He Hg Hl Hw Tq.
  set (k := fun r : option (bool * pyval) =>
              match r with
              | Some r => ret r
              | None =>
                  if truthy wiki_thumb then
                    lift (set_media (PDict d) wiki_thumb
                            (py_or wiki_page (dget links "wikipedia")) [])
                  else ret (false, PDict d)
              end).
  assert (E : enrich_poi w (PDict d) width overwrite
              = bind (l0, Ok tt)
                  (fun _ => bind (wikidata_step w (PDict d) width
                                    (py_or (dget links "wikidata") wiki_qid)) k)).
  { unfold enrich_poi. rewrite He, bind_lift_ok, Hg.
    rewrite py_get_dict, bind_lift_ok, Hl, !py_get_dict, !bind_lift_ok, Hw.
    reflexivity. }
  split.
  - intro Hq. rewrite E. unfold wikidata_step.
    rewrite Tq, (wikidata_entity_err w _ Hq). reflexivity.
  - intros l1 ent f Hent Hp Hc.
    assert (Ws : wikidata_step w (PDict d) width
                   (py_or (dget links "wikidata") wiki_qid)
                 = ((l1 ++ [CommonsImageInfo f])%list, Err e)).
    { unfold wikidata_step. rewrite Tq. eapply bind_ok; [exact Hent |].
      rewrite (p18_truthy _ Hp), Hp, (commons_imageinfo_err w f Hc).
      reflexivity. }
    rewrite E, Ws. reflexivity.
Qed.

Lemma no_fallback_after_failure_witness :
  (menin_web (WikidataGet (py_or (dget [("wikipedia",
                                         PStr "https://en.wikipedia.org/wiki/Menin_Gate");
                                        ("wikidata", PStr "Q42")] "wikidata")
                             (PStr "Q1124785")))
   = Err RequestException ->
   enrich_poi menin_web (PDict menin_gate_other_id) 900 false
   = (([WikipediaQuery "en" "Menin Gate"]
       ++ [WikidataGet (py_or (dget [("wikipedia",
                                      PStr "https://en.wikipedia.org/wiki/Menin_Gate");
                                     ("wikidata", PStr "Q42")] "wikidata")
                          (PStr "Q1124785"))])%list,
      Err RequestException))
  /\ (forall l1 ent f,
        wikidata_entity menin_web
          (py_or (dget [("wikipedia",
                         PStr "https://en.wikipedia.org/wiki/Menin_Gate");
                        ("wikidata", PStr "Q42")] "wikidata")
             (PStr "Q1124785"))
        = (l1, Ok ent) ->
        wikidata_p18_filename ent = Some f ->
        menin_web (CommonsImageInfo f) = Err RequestException ->
        enrich_poi menin_web (PDict menin_gate_other_id) 900 false
        = (([WikipediaQuery "en" "Menin Gate"] ++ l1 ++ [CommonsImageInfo f])%list,
           Err RequestException)).
Proof.
  apply (@no_fallback_after_failure menin_web menin_gate_other_id 900 false
           PNone
           [("wikipedia", PStr "https://en.wikipedia.org/wiki/Menin_Gate");
            ("wikidata", PStr "Q42")]
           [WikipediaQuery "en" "Menin Gate"]
           (PStr page_thumb) (PStr "Q1124785")
           (PStr "https://en.wikipedia.org/wiki/Menin_Gate")
           RequestException); reflexivity.
Defined.

(** ** The warnings and the counter of the loop *)






(** ** A second run with [overwrite] *)

Lemma merge_image_settles_stored (img : dict) (thumb page : pyval) (meta : dict) :
  (forall k, In k image_fields ->
     self_equal (dget (fst (merge_image img thumb page meta)) k)) ->
  snd (merge_image (fst (merge_image img thumb page meta)) thumb page meta)
  = false.
Proof.
  intro S.
  destruct (merge_image_fields img thumb page meta) as (Ht & Hp & Hm & Hs).
  rewrite merge_image_snd.
  set (img' := fst (merge_image img thumb page meta)) in *.
  assert (G : forall (old new stored : pyval),
            stored = (if truthy new && negb (py_eq old new) then new else old) ->
            self_equal stored ->
            truthy new && negb (py_eq stored new) = false).
  { intros old new stored -> Hse. unfold self_equal in Hse.
    destruct (truthy new); [| reflexivity].
    destruct (py_eq old new) eqn:E; simpl in *; [now rewrite E | now rewrite Hse]. }
  assert (I : forall k, In k image_fields -> self_equal (dget img' k)) by exact S.
  rewrite (G _ _ _ (Hm "credit" (or_intror (or_intror eq_refl))))
    by (apply I; simpl; tauto).
  rewrite (G _ _ _ (Hm "license_url" (or_intror (or_introl eq_refl))))
    by (apply I; simpl; tauto).
  rewrite (G _ _ _ (Hm "license" (or_introl eq_refl)))
    by (apply I; simpl; tauto).
  rewrite (G _ _ _ Hp) by (apply I; simpl; tauto).
  rewrite Hs.
  assert (Gt : py_eq (dget img' "thumb") thumb = true).
  { pose proof (I "thumb" (or_introl eq_refl)) as Hse. unfold self_equal in Hse.
    rewrite Ht in Hse |- *.
    destruct (py_eq (dget img "thumb") thumb) eqn:E; [exact E | exact Hse]. }
  rewrite Gt. reflexivity.
Qed.

(** With [overwrite], [enrich_poi] uses the record through its [links]
    only: the requests and the result that is merged are the same for
    every record that has these links and a [media] sub-record that can
    be read. *)
Lemma enrich_poi_by_links (w : World) (width : Z) (links0 : pyval) :
  exists R : M (option (pyval * pyval * dict)),
    forall d existing,
      dget d "links" = links0 ->
      existing_thumb (PDict d) = Ok existing ->
      enrich_poi w (PDict d) width true
      = match R with
        | (log, Ok (Some (thumb, page, meta))) =>
            (log, set_media (PDict d) thumb page meta)
        | (log, Ok None) => (log, Ok (false, PDict d))
        | (log, Err e) => (log, Err e)
        end.
Proof.
  exists
    (links <- lift (as_dict (py_or links0 (PDict []))) ;;
     wk <- wikipedia_step w (dget links "wikipedia") ;;
     let '(wiki_thumb, wiki_qid, wiki_page) := wk in
     let best_qid := py_or (dget links "wikidata") wiki_qid in
     r <- (if truthy best_qid then
             ent <- wikidata_entity w best_qid ;;
             if truthy ent then
               match wikidata_p18_filename ent with
               | Some p18 =>
                   meta <- commons_imageinfo w p18 ;;
                   ret (Some (PStr (commons_thumb_url p18 width),
                              PStr (commons_page_url p18), meta))
               | None => ret None
               end
             else ret None
           else ret None) ;;
     match r with
     | Some x => ret (Some x)
     | None =>
         if truthy wiki_thumb then
           ret (Some (wiki_thumb, py_or wiki_page (dget links "wikipedia"),
                      @nil (string * pyval)))
         else ret None
     end).
  intros d existing Hl He.
  unfold enrich_poi, wikidata_step. rewrite He, bind_lift_ok.
  replace (truthy existing && negb true) with false by now destruct (truthy existing).
  rewrite py_get_dict, bind_lift_ok, Hl.
  destruct (py_or links0 (PDict [])) as [| | | | | | links]; try reflexivity.
  simpl as_dict. rewrite !py_get_dict, !bind_lift_ok. cbv zeta.
  destruct (wikipedia_step w (dget links "wikipedia"))
    as [l0 [[[wiki_thumb wiki_qid] wiki_page] | e]]; [| reflexivity].
  cbn [bind].
  destruct (truthy (py_or (dget links "wikidata") wiki_qid));
    [destruct (wikidata_entity w (py_or (dget links "wikidata") wiki_qid))
       as [l1 [ent | e]]; [| reflexivity];
     cbn [bind];
     destruct (truthy ent);
       [destruct (wikidata_p18_filename ent) as [p18 |];
          [destruct (commons_imageinfo w p18) as [l2 [meta | e]];
             [| reflexivity] |] |] |];
    cbn [bind ret lift];
    try destruct (truthy wiki_thumb); cbn [bind ret lift];
    try match goal with
        | |- context [set_media ?a ?b ?c ?m] =>
            destruct (set_media a b c m) as [[c0 p0] | e0]
        end;
    cbn [bind ret lift]; now rewrite ?app_nil_r.
Qed.

(** X24.  A second run with [overwrite] changes nothing.  When
    [enrich_poi] has returned with [overwrite] set, and the six fields of
    [media.image] in the record it returned are values equal to themselves
    (strings and [None] are), calling it again on that record, with the
    same web and width, makes the same requests and returns [False] and
    the record as it is. *)
Theorem overwrite_settles (w : World) (poi : pyval) (width : Z)
    (log : list call) (c : bool) (poi' : pyval) (img' : dict) :
  enrich_poi w poi width true = (log, Ok (c, poi')) ->
  image_of poi' = Ok img' ->
  (forall k, In k image_fields -> self_equal (dget img' k)) ->
  enrich_poi w poi' width true = (log, Ok (false, poi')).
Proof.
  intros H Hi S.
  destruct (enrich_poi_ok_dict _ _ _ _ H) as [d ->].
  destruct (existing_thumb (PDict d)) as [existing | e] eqn:He;
    [| unfold enrich_poi in H; rewrite He in H; discriminate].
  destruct (enrich_poi_by_links w width (dget d "links")) as [R HR].
  rewrite (HR d existing eq_refl He) in H.
  destruct R as [lg [[[[thumb page] meta] |] | e]]; try discriminate.
  - inversion H as [[El Hs]]. subst lg.
    destruct (image_of_set_media _ _ _ _ Hs) as (img & _ & Hi2).
    rewrite Hi in Hi2. inversion Hi2. subst img'. clear Hi2.
    destruct (set_media_frame _ _ _ _ Hs) as (d0 & d' & E0 & -> & [Hf _] & _).
    inversion E0. subst d0. clear E0.
    assert (Hl : dget d' "links" = dget d "links").
    { unfold dget. rewrite Hf; [reflexivity |]. intros [E | []]. discriminate. }
    rewrite (HR d' _ Hl (existing_thumb_image_of _ Hi)).
    f_equal.
    unfold image_of in Hi. simpl as_dict in Hi. simpl rbind in Hi.
    destruct (as_dict (py_or (dget d' "media") (PDict []))) as [media' |] eqn:Em;
      [| discriminate].
    simpl in Hi.
    pose proof (set_media_ok d' thumb page meta Em Hi) as H2.
    rewrite (@merge_image_settles_stored img thumb page meta S) in H2.
    rewrite H2. f_equal. f_equal. now apply set_media_false in H2.
  - inversion H. subst. now rewrite (HR d existing eq_refl He).
Qed.

Lemma overwrite_settles_witness :
  enrich_poi menin_web menin_gate_enriched 900 true
  = ([WikipediaQuery "en" "Menin Gate"; WikidataGet (PStr "Q1124785");
      CommonsImageInfo "Menin Gate.jpg"],
     Ok (false, menin_gate_enriched)).
Proof.
  apply (@overwrite_settles menin_web menin_gate 900 _ true menin_gate_enriched
           (fst (merge_image [] (PStr (commons_thumb_url "Menin Gate.jpg" 900))
                   (PStr (commons_page_url "Menin Gate.jpg")) menin_meta)));
    try reflexivity.
  intros k Hk. simpl in Hk.
  repeat (destruct Hk as [<- | Hk]; [reflexivity |]). contradiction.
Defined.

(** ** A reference to a page that does not exist *)

(** X25.  A missing page is no error.  Past the guard, for a record with
    a reference that parses and no stored entity id: when the encyclopedia
    answers with no page, or with a first page marked [missing], the page
    metadata client returns the empty mapping and [enrich_poi] returns
    [False] with the record as it was, after this one request; no entity
    or asset request is made. *)
Theorem missing_page_leaves_record (w : World) (d : dict) (width : Z)
    (overwrite : bool) (existing : pyval) (links : dict)
    (url lang title : string) (j query : dict) (pages : pyval) :
  existing_thumb (PDict d) = Ok existing ->
  truthy existing && negb overwrite = false ->
  py_or (dget d "links") (PDict []) = PDict links ->
  dget links "wikipedia" = PStr url ->
  wikipedia_lang_and_title url = Some (lang, title) ->
  truthy (dget links "wikidata") = false ->
  w (WikipediaQuery lang title) = Ok (PDict j) ->
  dget j "query" = PDict query ->
  dget query "pages" = pages ->
  truthy pages = false
  \/ (exists page more,
        pages = PList (PDict page :: more) /\ truthy (dget page "missing") = true) ->
  wikipedia_pageinfo w lang title = ([WikipediaQuery lang title], Ok [])
  /\ enrich_poi w (PDict d) width overwrite
     = ([WikipediaQuery lang title], Ok (false, PDict d)).
Proof.
  intros He Hg Hl Hw Hp Tq Hj Hq Hpages Hcase.
  assert (Nj : py_or (PDict j) (PDict []) = PDict j)
    by (destruct j; [discriminate Hq | reflexivity]).
  assert (Nq : py_or (PDict query) (PDict []) = PDict query).
  { destruct query; [| reflexivity].
    destruct Hcase as [_ | (page & more & E & _)]; [reflexivity |].
    subst pages. discriminate E. }
  assert (Hi : wikipedia_pageinfo w lang title
               = ([WikipediaQuery lang title], Ok [])).
  { unfold wikipedia_pageinfo. rewrite request_then_lift, Hj, Nj.
    rewrite py_get_dict, Hq. simpl rbind. rewrite Nq, py_get_dict, Hpages.
    simpl rbind. cbv zeta.
    destruct Hcase as [T | (page & more & -> & T)].
    - unfold py_or. rewrite T. reflexivity.
    - simpl. rewrite T. reflexivity. }
  split; [exact Hi |].
  unfold enrich_poi. rewrite He, bind_lift_ok, Hg.
  rewrite py_get_dict, bind_lift_ok, Hl, !py_get_dict, !bind_lift_ok, Hw.
  unfold wikipedia_step.
  assert (T : truthy (PStr url) = true).
  { simpl. destruct url; [discriminate | reflexivity]. }
  rewrite T, Hp, Hi. cbn [bind ret].
  change (dget [] "qid") with PNone. change (dget [] "thumbnail") with PNone.
  unfold wikidata_step, py_or. rewrite Tq. reflexivity.
Qed.

Lemma missing_page_leaves_record_witness :
  wikipedia_pageinfo web_without_page "en" "Tyne Cot"
  = ([WikipediaQuery "en" "Tyne Cot"], Ok [])
  /\ enrich_poi web_without_page (PDict tyne_cot) 900 false
     = ([WikipediaQuery "en" "Tyne Cot"], Ok (false, PDict tyne_cot)).
Proof.
  apply (@missing_page_leaves_record web_without_page tyne_cot 900 false PNone
           [("wikipedia", PStr "https://en.wikipedia.org/wiki/Tyne_Cot")]
           "https://en.wikipedia.org/wiki/Tyne_Cot" "en" "Tyne Cot"
           [("batchcomplete", PBool true);
            ("query",
             PDict [("pages",
                     PList [PDict [("title", PStr "Tyne Cot");
                                   ("missing", PBool true)]])])]
           [("pages",
             PList [PDict [("title", PStr "Tyne Cot"); ("missing", PBool true)]])]
           (PList [PDict [("title", PStr "Tyne Cot"); ("missing", PBool true)]]));
    try reflexivity.
  right. eexists _, _. split; reflexivity.
Defined.
